(** * status_map_validator: the StatusMap transition graph and its classifier

    A shallow embedding of [src/status_map_validator/__init__.py].

    - Python values that a transition specification can be made of are the
      inductive type [PyVal]; statuses are Python strings.
    - Python's insertion-ordered [dict] is an association list ([dict V]).
    - Exceptions are the inductive type [exn]; a fallible call returns
      [exn + A] and is sequenced with the [let*] notation.
    - The two [functools.lru_cache] tables of [get_ancestors] and
      [get_descendants] are process state, passed explicitly ([caches]).
    - The graph operations of networkx that the class calls
      ([DiGraph.add_nodes_from], [DiGraph.add_edges_from], [has_node],
      [has_successor], [ancestors], [descendants]) are library code outside
      [src/]; they are embedded in [Module nx]. *)

From Stdlib Require Import List String Ascii Bool Arith Lia.
From Stdlib Require Import Relations.
Import ListNotations.
Set Warnings "-register-all".
Open Scope string_scope.
Open Scope list_scope.

(** ** Statuses and Python values *)

(** A status is a hashable identifier; in this development a Python [str]. *)
Definition Status := string.

(** Insertion-ordered dictionaries with string keys.  The list holds the
    items in insertion order; [dict_set] keeps the position of a key that is
    already present, as Python does. *)
Definition dict (V : Type) := list (string * V).

Section Dict.
Context {V : Type}.

Fixpoint dict_get (d : dict V) (k : string) : option V :=
  match d with
  | [] => None
  | (k', v) :: d' => if String.eqb k' k then Some v else dict_get d' k
  end.

Definition dict_mem (d : dict V) (k : string) : bool :=
  match dict_get d k with Some _ => true | None => false end.

Fixpoint dict_set (d : dict V) (k : string) (v : V) : dict V :=
  match d with
  | [] => [(k, v)]
  | (k', v') :: d' =>
      if String.eqb k' k then (k', v) :: d' else (k', v') :: dict_set d' k v
  end.

Definition dict_keys (d : dict V) : list string := map fst d.

(** [d.get(k, default)] *)
Definition dict_get_default (d : dict V) (k : string) (default : V) : V :=
  match dict_get d k with Some v => v | None => default end.

(** [d.update(other)] *)
Definition dict_update (d other : dict V) : dict V :=
  fold_left (fun acc kv => dict_set acc (fst kv) (snd kv)) other d.
End Dict.

(** The Python values a specification is built from: [None], [str], [list]
    and [dict] with [str] keys.  [PList] is a [list] (or a [set]): it can be
    iterated and it cannot be hashed, so it is refused as a node.  [PDict] is
    a [dict] given by its items in insertion order.  Hashable values other
    than [None] and [str] (tuples, numbers, objects hashed by identity) are
    outside this universe, and so is what the constructor does with them. *)
Inductive PyVal : Type :=
| PNone
| PStr (s : string)
| PList (xs : list PyVal)
| PDict (items : list (string * PyVal)).

(** ** Exceptions *)

(** The built-in exceptions the constructor can meet, networkx's own, and the
    five classes the module imports from [.exceptions]; those carry the
    message they are raised with.

    Modelled from the spec: [SpecificationError], the construction-time
    failure kind of the spec's error taxonomy.  [.exceptions] is not under
    src/, and the module imports no class of that name. *)
Inductive exn : Type :=
| AttributeError
| TypeError
| ValueError
| KeyError
| NetworkXError
| StatusNotFoundError (msg : string)
| AmbiguousTransitionError (msg : string)
| FutureTransitionError (msg : string)
| PastTransitionError (msg : string)
| TransitionNotFoundError (msg : string)
| SpecificationError.

Definition result (A : Type) : Type := (exn + A)%type.

Definition bind {A B : Type} (r : result A) (k : A -> result B) : result B :=
  match r with
  | inl e => inl e
  | inr a => k a
  end.

Notation "'let*' x ':=' r 'in' k" := (bind r (fun x => k))
  (at level 10, x pattern, r at level 100, k at level 200).

(** A [for] loop whose body may raise: the state is threaded through the
    items, and the first exception ends the loop. *)
Fixpoint for_each {A S : Type} (body : S -> A -> result S) (xs : list A) (s : S)
  : result S :=
  match xs with
  | [] => inr s
  | x :: xs' => let* s' := body s x in for_each body xs' s'
  end.

(** Iteration protocol: [iter(v)].  A [str] yields its characters as
    one-character strings, a [dict] its keys; [None] is not iterable. *)
Definition char_strings (s : string) : list PyVal :=
  map (fun c => PStr (String c EmptyString)) (list_ascii_of_string s).

Definition py_iter (v : PyVal) : result (list PyVal) :=
  match v with
  | PNone => inl TypeError
  | PStr s => inr (char_strings s)
  | PList xs => inr xs
  | PDict items => inr (map (fun kv => PStr (fst kv)) items)
  end.

(** [v.keys()]: only a [dict] has the attribute. *)
Definition py_keys (v : PyVal) : result (list string) :=
  match v with
  | PDict items => inr (dict_keys items)
  | _ => inl AttributeError
  end.

(** [v[k]] on the specification, which at that point is known to be a
    [dict]. *)
Definition py_getitem (v : PyVal) (k : string) : result PyVal :=
  match v with
  | PDict items =>
      match dict_get items k with Some x => inr x | None => inl KeyError end
  | _ => inl TypeError
  end.

(** [v.get(k, default)]: only a [dict] has the attribute. *)
Definition py_get (v : PyVal) (k : string) (default : PyVal) : result PyVal :=
  match v with
  | PDict items => inr (dict_get_default items k default)
  | _ => inl AttributeError
  end.

(** Membership in a Python [set] of statuses, kept as a duplicate-free list. *)
Definition set_mem (x : Status) (s : list Status) : bool :=
  existsb (String.eqb x) s.

(** ** networkx.DiGraph *)

Module nx.

(** Edge and node attribute dictionaries. *)
Definition Attrs := dict PyVal.

(** [ident] is the object's identity [id(graph)]: a [DiGraph] defines
    neither [__eq__] nor [__hash__], so it is hashed and compared by
    identity.  [_node], [_succ] and [_pred] are the three dictionaries
    networkx keeps. *)
Record DiGraph : Type := mkDiGraph {
  ident : nat;
  _node : dict Attrs;
  _succ : dict (dict Attrs);
  _pred : dict (dict Attrs)
}.

(** [DiGraph()] *)
Definition empty (i : nat) : DiGraph := mkDiGraph i [] [] [].

Definition has_node (g : DiGraph) (n : Status) : bool := dict_mem (_node g) n.

(** [u in self._succ and v in self._succ[u]] *)
Definition has_successor (g : DiGraph) (u v : Status) : bool :=
  match dict_get (_succ g) u with
  | Some adj => dict_mem adj v
  | None => false
  end.

Definition has_predecessor (g : DiGraph) (u v : Status) : bool :=
  match dict_get (_pred g) u with
  | Some adj => dict_mem adj v
  | None => false
  end.

Definition number_of_nodes (g : DiGraph) : nat := List.length (_node g).

(** [G.nodes] in iteration order. *)
Definition nodes (g : DiGraph) : list Status := dict_keys (_node g).

(** [add_nodes_from], one node: a node not yet in [_node] gets an empty
    entry in each of the three dictionaries. *)
Definition add_node (g : DiGraph) (n : Status) : DiGraph :=
  if dict_mem (_node g) n then g
  else mkDiGraph (ident g)
                 (dict_set (_node g) n [])
                 (dict_set (_succ g) n [])
                 (dict_set (_pred g) n []).

Definition add_nodes_from (g : DiGraph) (ns : list Status) : DiGraph :=
  fold_left add_node ns g.

(** [add_edges_from] registers an endpoint that is not yet in [_succ]. *)
Definition register (g : DiGraph) (n : Status) : DiGraph :=
  if dict_mem (_succ g) n then g
  else mkDiGraph (ident g)
                 (dict_set (_node g) n [])
                 (dict_set (_succ g) n [])
                 (dict_set (_pred g) n []).

(** [add_edges_from], one edge with hashable endpoints: both endpoints are
    registered; the edge's data dictionary (the one already stored, or a
    new one) is updated with [dd] and stored under [_succ[u][v]] and
    [_pred[v][u]]. *)
Definition add_edge (g : DiGraph) (u v : Status) (dd : Attrs) : DiGraph :=
  let g1 := register (register g u) v in
  let adj_u := dict_get_default (_succ g1) u [] in
  let datadict := dict_update (dict_get_default adj_u v []) dd in
  mkDiGraph (ident g1)
            (_node g1)
            (dict_set (_succ g1) u (dict_set adj_u v datadict))
            (dict_set (_pred g1) v
               (dict_set (dict_get_default (_pred g1) v []) u datadict)).

(** An element of the edge bunch: the source (always a status here), the
    target as the caller wrote it, and the data dictionary of a 3-tuple. *)
Definition ebunch_item : Type := (Status * PyVal * option PyVal)%type.

(** [add_edges_from] on one element.  An unhashable target raises
    [TypeError] at [v not in self._succ]; [None] raises [ValueError]
    ("None cannot be a node"); the data of a 3-tuple goes through
    [dict.update]. *)
Definition add_edge_item (g : DiGraph) (e : ebunch_item) : result DiGraph :=
  let '(u, v, dd) := e in
  match v with
  | PStr v' =>
      match dd with
      | None => inr (add_edge g u v' [])
      | Some (PDict d) => inr (add_edge g u v' d)
      | Some _ => inl TypeError
      end
  | PNone => inl ValueError
  | PList _ | PDict _ => inl TypeError
  end.

Definition add_edges_from (g : DiGraph) (es : list ebunch_item) : result DiGraph :=
  for_each add_edge_item es g.

(** [G.successors(n)] / [G.predecessors(n)]: the keys of the adjacency
    dictionary; [NetworkXError] when [n] is not in the graph. *)
Definition successors (g : DiGraph) (n : Status) : result (list Status) :=
  match dict_get (_succ g) n with
  | Some adj => inr (dict_keys adj)
  | None => inl NetworkXError
  end.

Definition predecessors (g : DiGraph) (n : Status) : result (list Status) :=
  match dict_get (_pred g) n with
  | Some adj => inr (dict_keys adj)
  | None => inl NetworkXError
  end.

(** *** Breadth-first search ([generic_bfs_edges])

    The search runs level by level, at most [len(G)] levels deep.  [seen]
    is the set of visited nodes, [next_parents_children] the parents of the
    next level with their neighbour lists, [yielded] the children of the
    edges yielded so far.  A child taken from an adjacency dictionary is a
    node of the graph, so its own neighbour lookup cannot raise; [adj]
    gives no neighbours where the lookup would. *)
Record bfs_state : Type := mkBfs {
  seen : list Status;
  next_parents_children : list (Status * list Status);
  yielded : list Status
}.

Section Bfs.
Variable adj : Status -> list Status.
(** [n = len(G)] *)
Variable n : nat.

(** [for child in children: if child not in seen: ...] *)
Fixpoint visit_children (children : list Status) (st : bfs_state) : bfs_state :=
  match children with
  | [] => st
  | child :: rest =>
      if set_mem child (seen st) then visit_children rest st
      else visit_children rest
             (mkBfs (child :: seen st)
                    (next_parents_children st ++ [(child, adj child)])
                    (yielded st ++ [child]))
  end.

(** [for parent, children in this_parents_children: ...]; the boolean
    tells that the generator returned at [len(seen) == n]. *)
Fixpoint visit_parents (this : list (Status * list Status)) (st : bfs_state)
  : bool * bfs_state :=
  match this with
  | [] => (false, st)
  | (_, children) :: rest =>
      let st' := visit_children children st in
      if Nat.eqb (List.length (seen st')) n then (true, st')
      else visit_parents rest st'
  end.

(** [while next_parents_children and depth < depth_limit: ...], with
    [fuel = depth_limit - depth]. *)
Fixpoint bfs_levels (fuel : nat) (st : bfs_state) : list Status :=
  match fuel with
  | 0 => yielded st
  | S fuel' =>
      match next_parents_children st with
      | [] => yielded st
      | this =>
          let '(returned, st') :=
            visit_parents this (mkBfs (seen st) [] (yielded st)) in
          if returned then yielded st' else bfs_levels fuel' st'
      end
  end.

(** The children of the yielded edges, in the order of discovery. *)
Definition bfs_children (source : Status) : list Status :=
  bfs_levels n (mkBfs [source] [(source, adj source)] []).
End Bfs.

Definition succ_list (g : DiGraph) (x : Status) : list Status :=
  match successors g x with inr l => l | inl _ => [] end.

Definition pred_list (g : DiGraph) (x : Status) : list Status :=
  match predecessors g x with inr l => l | inl _ => [] end.

(** [descendants(G, source)]: the children of [bfs_edges(G, source)]. *)
Definition descendants (g : DiGraph) (source : Status) : result (list Status) :=
  let* _ := successors g source in
  inr (bfs_children (succ_list g) (number_of_nodes g) source).

(** [ancestors(G, source)]: the same search along the incoming edges. *)
Definition ancestors (g : DiGraph) (source : Status) : result (list Status) :=
  let* _ := predecessors g source in
  inr (bfs_children (pred_list g) (number_of_nodes g) source).

End nx.

(** ** functools.lru_cache *)

(** The cache key of a call [f(graph, status)]: the graph hashes by
    identity. *)
Definition cache_key : Type := (nat * Status)%type.

Definition key_eqb (k1 k2 : cache_key) : bool :=
  Nat.eqb (fst k1) (fst k2) && String.eqb (snd k1) (snd k2).

(** A cache table: the [hits] and [misses] counters of [cache_info()] and
    the entries, most recently used first. *)
Record lru : Type := mkLru {
  hits : nat;
  misses : nat;
  entries : list (cache_key * list Status)
}.

Definition maxsize : nat := 512.

Fixpoint lru_lookup (c : list (cache_key * list Status)) (k : cache_key)
  : option (list Status) :=
  match c with
  | [] => None
  | (k', v) :: c' => if key_eqb k' k then Some v else lru_lookup c' k
  end.

Definition lru_remove (c : list (cache_key * list Status)) (k : cache_key)
  : list (cache_key * list Status) :=
  filter (fun e => negb (key_eqb (fst e) k)) c.

(** A call through the cache.  A hit is counted and moves the entry to the
    front; a miss is counted, calls the function, stores its result and
    evicts the least recently used entry beyond [maxsize]; an exception is
    not cached. *)
Definition lru_cache (f : nx.DiGraph -> Status -> result (list Status))
  (c : lru) (graph : nx.DiGraph) (status : Status) : result (list Status) * lru :=
  let k := (nx.ident graph, status) in
  match lru_lookup (entries c) k with
  | Some v =>
      (inr v, mkLru (S (hits c)) (misses c) ((k, v) :: lru_remove (entries c) k))
  | None =>
      match f graph status with
      | inl e => (inl e, mkLru (hits c) (S (misses c)) (entries c))
      | inr v =>
          (inr v, mkLru (hits c) (S (misses c))
                    (firstn maxsize ((k, v) :: entries c)))
      end
  end.

(** The process-wide state: one table per decorated function. *)
Record caches : Type := mkCaches {
  ancestors_cache : lru;
  descendants_cache : lru
}.

Definition empty_caches : caches := mkCaches (mkLru 0 0 []) (mkLru 0 0 []).

(** ** StatusMap *)

(** [_validations = None] is the instance without the attribute
    [_validations]. *)
Record StatusMap : Type := mkStatusMap {
  _graph : nx.DiGraph;
  _validations : option (dict (dict PyVal))
}.

Definition _add_validation (validations : option (dict (dict PyVal)))
  (from_state to_state : Status) (validation_method : PyVal)
  : option (dict (dict PyVal)) :=
  let v0 := match validations with Some v => v | None => [] end in
  let v1 := if dict_mem v0 from_state then v0 else dict_set v0 from_state [] in
  Some (dict_set v1 from_state
          (dict_set (dict_get_default v1 from_state []) to_state validation_method)).

Definition _add_transition_validations (validations : option (dict (dict PyVal)))
  (from_state : Status) (transitions : list (string * PyVal))
  : result (option (dict (dict PyVal))) :=
  for_each
    (fun vals item =>
       let '(to_state, attributes) := item in
       let* validation_methods := py_get attributes "validation" (PList []) in
       let* methods := py_iter validation_methods in
       inr (fold_left
              (fun vals' validation_method =>
                 _add_validation vals' from_state to_state validation_method)
              methods vals))
    transitions validations.

(** [StatusMap(transitions)]; [i] is the identity of the new graph object.
    [nodes = deepcopy(graph.nodes)] holds copies of the keys; a copy of a
    [str] equals the [str], so [transitions[node]] looks up the key itself
    and the loop runs over [nx.nodes graph]. *)
Definition __init__ (i : nat) (transitions : PyVal) : result StatusMap :=
  let* keys := py_keys transitions in
  let graph := nx.add_nodes_from (nx.empty i) keys in
  let nodes := nx.nodes graph in
  let* self :=
    for_each
      (fun (self : nx.DiGraph * option (dict (dict PyVal))) node =>
         let '(graph, validations) := self in
         let* edges := py_getitem transitions node in
         match edges with
         | PDict items =>
             let edges_to_add :=
               map (fun ea => (node, PStr (fst ea), Some (snd ea))) items in
             let* validations' :=
               _add_transition_validations validations node items in
             let* graph' := nx.add_edges_from graph edges_to_add in
             inr (graph', validations')
         | _ =>
             let* targets := py_iter edges in
             let edges_to_add := map (fun edge => (node, edge, None)) targets in
             let* graph' := nx.add_edges_from graph edges_to_add in
             inr (graph', validations)
         end)
      nodes (graph, None) in
  inr (mkStatusMap (fst self) (snd self)).

Definition __getitem__ (self : StatusMap) (node : Status) : result (dict nx.Attrs) :=
  match dict_get (nx._succ (_graph self)) node with
  | Some adj => inr adj
  | None => inl KeyError
  end.

(** [Mapping.__contains__]: [self[key]] is tried and [KeyError] means
    absent. *)
Definition __contains__ (self : StatusMap) (key : Status) : bool :=
  match __getitem__ self key with
  | inr _ => true
  | inl _ => false
  end.

Definition __len__ (self : StatusMap) : nat := nx.number_of_nodes (_graph self).

Definition __iter__ (self : StatusMap) : list Status := nx.nodes (_graph self).

Definition statuses (self : StatusMap) : list Status := nx.nodes (_graph self).

Definition get_ancestors := lru_cache nx.ancestors.

Definition get_descendants := lru_cache nx.descendants.

Definition get_validations (self : StatusMap) (from_state to_state : Status)
  : result PyVal :=
  match _validations self with
  | None => inl AttributeError
  | Some validations =>
      inr (dict_get_default (dict_get_default validations from_state [])
             to_state (PList []))
  end.

Definition validate_transition (self : StatusMap) (from_status to_status : Status)
  (c : caches) : result unit * caches :=
  let graph := _graph self in
  if negb (nx.has_node graph from_status) then
    (inl (StatusNotFoundError ("from_status " ++ from_status ++ " not found")), c)
  else if negb (nx.has_node graph to_status) then
    (inl (StatusNotFoundError ("to_status " ++ to_status ++ " not found")), c)
  else if String.eqb from_status to_status
          || nx.has_successor graph from_status to_status then
    (inr tt, c)
  else
    match get_ancestors (ancestors_cache c) graph from_status with
    | (inl e, ac) => (inl e, mkCaches ac (descendants_cache c))
    | (inr anc, ac) =>
        let is_ancestor := set_mem to_status anc in
        match get_descendants (descendants_cache c) graph from_status with
        | (inl e, dc) => (inl e, mkCaches ac dc)
        | (inr desc, dc) =>
            let is_descendant := set_mem to_status desc in
            let c' := mkCaches ac dc in
            if is_ancestor && is_descendant then
              (inl (AmbiguousTransitionError
                      ("from " ++ from_status ++ " to " ++ to_status
                       ++ " is both past and future")), c')
            else if is_descendant then
              (inl (FutureTransitionError
                      ("from " ++ from_status ++ " to " ++ to_status
                       ++ " should happen in the future")), c')
            else if is_ancestor then
              (inl (PastTransitionError
                      ("from " ++ from_status ++ " to " ++ to_status
                       ++ " should have happened in the past")), c')
            else
              (inl (TransitionNotFoundError
                      ("from " ++ from_status ++ " to " ++ to_status
                       ++ " not found")), c')
        end
    end.

(** ** Notions the statements are written with *)

(** A declared edge of the graph, and a directed path of at least one edge. *)
Definition edge (g : nx.DiGraph) (x y : Status) : Prop :=
  nx.has_successor g x y = true.

Definition reachable (g : nx.DiGraph) : Status -> Status -> Prop :=
  clos_trans Status (edge g).

Definition acyclic (g : nx.DiGraph) : Prop := forall x, ~ reachable g x x.

(** Both nodes lie on one directed cycle. *)
Definition on_common_cycle (g : nx.DiGraph) (x y : Status) : Prop :=
  reachable g x y /\ reachable g y x.

(** Membership in a dictionary of adjacency dictionaries: [b in d[a]]. *)
Definition adj_mem {V : Type} (d : dict (dict V)) (a b : Status) : bool :=
  match dict_get d a with
  | Some adj => dict_mem adj b
  | None => false
  end.

(** [g'] is the same graph object as [g], with the nodes and edges of [g]
    and possibly more. *)
Definition extends (g g' : nx.DiGraph) : Prop :=
  nx.ident g' = nx.ident g
  /\ (forall x, nx.has_node g x = true -> nx.has_node g' x = true)
  /\ (forall a b, nx.has_successor g a b = true -> nx.has_successor g' a b = true).

(** The exception [validate_transition] raises for two distinct nodes
    without a direct edge, by the two membership tests. *)
Definition raised (is_ancestor is_descendant : bool)
  (from_status to_status : Status) : exn :=
  if is_ancestor && is_descendant then
    AmbiguousTransitionError
      ("from " ++ from_status ++ " to " ++ to_status ++ " is both past and future")
  else if is_descendant then
    FutureTransitionError
      ("from " ++ from_status ++ " to " ++ to_status ++ " should happen in the future")
  else if is_ancestor then
    PastTransitionError
      ("from " ++ from_status ++ " to " ++ to_status
       ++ " should have happened in the past")
  else
    TransitionNotFoundError
      ("from " ++ from_status ++ " to " ++ to_status ++ " not found").

(** The consistency networkx maintains between its three dictionaries. *)
Record wf_graph (g : nx.DiGraph) : Prop := mkWf {
  wf_succ_keys : forall x, dict_mem (nx._succ g) x = nx.has_node g x;
  wf_pred_keys : forall x, dict_mem (nx._pred g) x = nx.has_node g x;
  wf_edge_nodes : forall u v,
      nx.has_successor g u v = true -> nx.has_node g v = true;
  wf_mirror : forall u v, nx.has_predecessor g v u = nx.has_successor g u v;
  wf_nodup : NoDup (nx.nodes g)
}.

(** Invariants of the breadth-first search from [source] over the neighbour
    function [adj], inside the node list [univ]. *)
Definition bfs_sound (adj : Status -> list Status) (univ : list Status)
  (source : Status) (st : nx.bfs_state) : Prop :=
  NoDup (nx.seen st)
  /\ incl (nx.seen st) univ
  /\ In source (nx.seen st)
  /\ (forall x, In x (nx.seen st) ->
        x = source \/ clos_trans Status (fun a b => In b (adj a)) source x)
  /\ (forall x, In x (nx.yielded st) <-> In x (nx.seen st) /\ x <> source).

Definition bfs_closure (adj : Status -> list Status)
  (pending : list (Status * list Status)) (st : nx.bfs_state) : Prop :=
  (forall p cs, In (p, cs) (pending ++ nx.next_parents_children st) ->
                cs = adj p /\ In p (nx.seen st))
  /\ (forall x, In x (nx.seen st) ->
        In (x, adj x) (pending ++ nx.next_parents_children st)
        \/ forall y, In y (adj x) -> In y (nx.seen st)).

(** Every entry of a cache table that belongs to graph [g] holds what the
    cached function returns on [g]. *)
Definition lru_valid (f : nx.DiGraph -> Status -> result (list Status))
  (g : nx.DiGraph) (c : lru) : Prop :=
  Forall (fun e => fst (fst e) = nx.ident g -> f g (snd (fst e)) = inr (snd e))
    (entries c).

Definition caches_valid (g : nx.DiGraph) (c : caches) : Prop :=
  lru_valid nx.ancestors g (ancestors_cache c)
  /\ lru_valid nx.descendants g (descendants_cache c).

(** The specification declares [b] as reachable from [a]: [a] is a top-level
    key and [b] is a key of its metadata mapping, or an element of its plain
    collection. *)
Definition declares (transitions : PyVal) (a b : Status) : Prop :=
  exists edges,
    py_getitem transitions a = inr edges
    /\ match edges with
       | PDict items => In b (dict_keys items)
       | _ => exists targets, py_iter edges = inr targets /\ In (PStr b) targets
       end.

Definition top_level_key (transitions : PyVal) (k : Status) : Prop :=
  exists keys, py_keys transitions = inr keys /\ In k keys.


(** ** Sample specifications *)

(** The map a specification builds, for the samples below. *)
Definition build (i : nat) (transitions : PyVal) : StatusMap :=
  match __init__ i transitions with
  | inr self => self
  | inl _ => mkStatusMap (nx.empty i) None
  end.

(** [{"a": ["b"], "b": {"c": {"validation": ["h1", "h2"]}}, "x": [], "y": []}]:
    the chain a -> b -> c, where "c" has no entry of its own, and two
    unrelated statuses. *)
Definition chain_spec : PyVal :=
  PDict [("a", PList [PStr "b"]);
         ("b", PDict [("c", PDict [("validation", PList [PStr "h1"; PStr "h2"])])]);
         ("x", PList []);
         ("y", PList [])].

Definition chain_map : StatusMap := build 1 chain_spec.

(** [{"p": ["q"], "q": ["r"], "r": ["p"]}]: one cycle through three
    statuses. *)
Definition cycle_spec : PyVal :=
  PDict [("p", PList [PStr "q"]);
         ("q", PList [PStr "r"]);
         ("r", PList [PStr "p"])].

Definition cycle_map : StatusMap := build 2 cycle_spec.

(** [{"a": ["b"], "b": []}]: no validation is declared anywhere. *)
Definition plain_spec : PyVal :=
  PDict [("a", PList [PStr "b"]); ("b", PList [])].

Definition plain_map : StatusMap := build 3 plain_spec.

(** Position of a status in the chain. *)
Definition chain_rank (s : Status) : nat :=
  if String.eqb s "a" then 0
  else if String.eqb s "b" then 1
  else 2.

(** ** Notions for the further properties *)

(** The outcomes [validate_transition] is written to produce: a return, or
    one of the five exception classes it raises. *)
Definition typed_outcome (r : result unit) : Prop :=
  match r with
  | inr _ => True
  | inl (StatusNotFoundError _) => True
  | inl (AmbiguousTransitionError _) => True
  | inl (FutureTransitionError _) => True
  | inl (PastTransitionError _) => True
  | inl (TransitionNotFoundError _) => True
  | inl _ => False
  end.

(** Number of calls a cache table has served. *)
Definition calls (c : lru) : nat := hits c + misses c.

(** Neither table holds more than [maxsize] entries. *)
Definition caches_bounded (c : caches) : Prop :=
  List.length (entries (ancestors_cache c)) <= maxsize
  /\ List.length (entries (descendants_cache c)) <= maxsize.

(** The node list of [g'] starts with the node list of [g]. *)
Definition nodes_prefix (g g' : nx.DiGraph) : Prop :=
  exists extra, nx.nodes g' = nx.nodes g ++ extra.

(** ** Well-formed specifications *)

(** [iter(v)] does not raise. *)
Definition iterable (v : PyVal) : bool :=
  match v with
  | PNone => false
  | _ => true
  end.

Definition is_str (v : PyVal) : bool :=
  match v with
  | PStr _ => true
  | _ => false
  end.

(** An attribute bag the constructor accepts: a mapping whose ["validation"]
    entry, when there is one, can be iterated. *)
Definition well_formed_bag (attributes : PyVal) : bool :=
  match attributes with
  | PDict bag => iterable (dict_get_default bag "validation" (PList []))
  | _ => false
  end.

(** An entry the constructor accepts: a mapping from targets to such bags, or
    an iterable of strings (a string being an iterable of its
    characters). *)
Definition well_formed_entry (edges : PyVal) : bool :=
  match edges with
  | PDict items => forallb (fun ea => well_formed_bag (snd ea)) items
  | PList targets => forallb is_str targets
  | PStr _ => true
  | PNone => false
  end.

(** A specification the constructor accepts: a mapping whose entry under
    every key is accepted. *)
Definition well_formed_spec (transitions : PyVal) : bool :=
  match transitions with
  | PDict items =>
      forallb (fun k => match dict_get items k with
                        | Some edges => well_formed_entry edges
                        | None => true
                        end)
              (dict_keys items)
  | _ => false
  end.

(** ** Validation hooks in the specification *)

(** What iterating [attributes.get("validation", [])] yields. *)
Definition hooks_of (attributes : PyVal) (methods : list PyVal) : Prop :=
  exists validation_methods,
    py_get attributes "validation" (PList []) = inr validation_methods
    /\ py_iter validation_methods = inr methods.

(** The specification lists the hooks [methods] for the edge [a -> b]: the
    entry under [a] is a mapping with an item [(b, attributes)]. *)
Definition declares_hooks (transitions : PyVal) (a b : Status)
  (methods : list PyVal) : Prop :=
  exists edges attributes,
    py_getitem transitions a = inr (PDict edges)
    /\ In (b, attributes) edges
    /\ hooks_of attributes methods.

(** What [_validations] holds for [(a, b)], if the attribute exists and has
    such an entry. *)
Definition stored (validations : option (dict (dict PyVal))) (a b : Status)
  : option PyVal :=
  match validations with
  | Some v => dict_get (dict_get_default v a []) b
  | None => None
  end.

(** The body of the loop of [__init__], on the graph and the validation
    index built so far. *)
Definition init_step (transitions : PyVal)
  (self : nx.DiGraph * option (dict (dict PyVal))) (node : string)
  : result (nx.DiGraph * option (dict (dict PyVal))) :=
  let '(graph, validations) := self in
  let* edges := py_getitem transitions node in
  match edges with
  | PDict items =>
      let edges_to_add :=
        map (fun ea => (node, PStr (fst ea), Some (snd ea))) items in
      let* validations' :=
        _add_transition_validations validations node items in
      let* graph' := nx.add_edges_from graph edges_to_add in
      inr (graph', validations')
  | _ =>
      let* targets := py_iter edges in
      let edges_to_add := map (fun edge => (node, edge, None)) targets in
      let* graph' := nx.add_edges_from graph edges_to_add in
      inr (graph', validations)
  end.

(** ** Facts about dictionaries *)

Section DictFacts.
Context {V : Type}.
Implicit Types (d : dict V) (k : string) (v : V).

Lemma dict_get_set_eq d k v : dict_get (dict_set d k v) k = Some v.
Proof.
  induction d as [|[k' v'] d IH]; simpl.
  - now rewrite String.eqb_refl.
  - destruct (String.eqb k' k) eqn:E; simpl; rewrite E; auto.
Qed.

Lemma dict_get_set_neq d k k' v :
  k <> k' -> dict_get (dict_set d k v) k' = dict_get d k'.
Proof.
  intros Hne. induction d as [|[k0 v0] d IH]; simpl.
  - destruct (String.eqb_spec k k'); congruence.
  - destruct (String.eqb_spec k0 k); simpl.
    + subst. destruct (String.eqb_spec k k'); congruence.
    + now rewrite IH.
Qed.

Lemma dict_get_set d k k' v :
  dict_get (dict_set d k v) k' = if String.eqb k k' then Some v else dict_get d k'.
Proof.
  destruct (String.eqb_spec k k').
  - subst. apply dict_get_set_eq.
  - now apply dict_get_set_neq.
Qed.

Lemma dict_mem_set d k k' v :
  dict_mem (dict_set d k v) k' = String.eqb k k' || dict_mem d k'.
Proof.
  unfold dict_mem. rewrite dict_get_set. now destruct (String.eqb k k').
Qed.

Lemma dict_mem_In d k : dict_mem d k = true <-> In k (dict_keys d).
Proof.
  unfold dict_mem. induction d as [|[k' v'] d IH]; simpl.
  - split; [discriminate | tauto].
  - destruct (String.eqb_spec k' k).
    + split; auto.
    + rewrite IH. split; [auto | intros [?|?]; [contradiction | auto]].
Qed.

Lemma dict_mem_false_In d k : dict_mem d k = false <-> ~ In k (dict_keys d).
Proof.
  rewrite <- dict_mem_In. destruct (dict_mem d k); split; congruence.
Qed.

Lemma dict_keys_set d k v :
  dict_keys (dict_set d k v)
  = if dict_mem d k then dict_keys d else dict_keys d ++ [k].
Proof.
  unfold dict_mem, dict_keys. induction d as [|[k' v'] d IH]; simpl; auto.
  destruct (String.eqb_spec k' k); simpl.
  - now subst.
  - rewrite IH. now destruct (dict_get d k).
Qed.

Lemma dict_set_nodup d k v : NoDup (dict_keys d) -> NoDup (dict_keys (dict_set d k v)).
Proof.
  intros H. rewrite dict_keys_set. destruct (dict_mem d k) eqn:E; auto.
  apply dict_mem_false_In in E.
  apply NoDup_app; [assumption | repeat constructor; simpl; tauto | ].
  intros x Hx [<-|[]]. contradiction.
Qed.

Lemma dict_keys_length d : List.length (dict_keys d) = List.length d.
Proof. apply length_map. Qed.
End DictFacts.

Lemma set_mem_In x s : set_mem x s = true <-> In x s.
Proof.
  unfold set_mem. rewrite existsb_exists. split.
  - intros [y [Hy E]]. apply String.eqb_eq in E. now subst.
  - intros H. exists x. split; [assumption | apply String.eqb_refl].
Qed.

Lemma set_mem_false x s : set_mem x s = false <-> ~ In x s.
Proof.
  rewrite <- set_mem_In. destruct (set_mem x s); split; congruence.
Qed.

(** ** Correctness of the breadth-first search *)

Section BfsCorrect.
Variable adj : Status -> list Status.
Variable univ : list Status.
Variable source : Status.
Variable n : nat.
Hypothesis n_def : n = List.length univ.
Hypothesis adj_univ : forall x y, In y (adj x) -> In y univ.

Local Abbreviation E := (fun a b : Status => In b (adj a)).
Local Abbreviation sound := (bfs_sound adj univ source).
Local Abbreviation closure := (bfs_closure adj).

Lemma visit_children_inv cs : forall st pending p,
  In p (nx.seen st) ->
  (forall y, In y cs -> In y (adj p)) ->
  sound st -> closure pending st ->
  sound (nx.visit_children adj cs st)
  /\ closure pending (nx.visit_children adj cs st)
  /\ incl (nx.seen st) (nx.seen (nx.visit_children adj cs st))
  /\ incl cs (nx.seen (nx.visit_children adj cs st))
  /\ List.length (nx.seen (nx.visit_children adj cs st))
     + List.length (nx.next_parents_children st)
     = List.length (nx.seen st)
       + List.length (nx.next_parents_children (nx.visit_children adj cs st)).
Proof.
  induction cs as [|child rest IH]; intros st pending p Hp Hcs Hs Hc; simpl.
  - split; [exact Hs | split; [exact Hc | split; [apply incl_refl | split]]];
      [intros x [] | reflexivity].
  - destruct (set_mem child (nx.seen st)) eqn:Hmem.
    + apply set_mem_In in Hmem.
      destruct (IH st pending p Hp (fun y Hy => Hcs y (or_intror Hy)) Hs Hc)
        as (S1 & C1 & I1 & I2 & L1).
      split; [exact S1 | split; [exact C1 | split; [exact I1 | split]]];
        [intros x [<-|Hx]; auto | exact L1].
    + apply set_mem_false in Hmem.
      destruct Hs as (Hnd & Hin & Hsrc & Hreach & Hy).
      destruct Hc as (Hpairs & Hclosed).
      set (st1 := nx.mkBfs (child :: nx.seen st)
                    (nx.next_parents_children st ++ [(child, adj child)])
                    (nx.yielded st ++ [child])).
      assert (Hchild : In child (adj p)) by (apply Hcs; now left).
      assert (S1 : sound st1).
      { unfold bfs_sound, st1; simpl.
        split; [|split; [|split; [|split]]].
        - now constructor.
        - intros x [<-|Hx]; [eapply adj_univ; eauto | auto].
        - now right.
        - intros x [<-|Hx]; [|auto]. right.
          destruct (Hreach p Hp) as [->|Hpath].
          + now apply t_step.
          + eapply t_trans; [exact Hpath | now apply t_step].
        - intros x. rewrite in_app_iff, Hy. simpl. split.
          + intros [[Hx Hne]|[<-|[]]]; [auto|].
            split; [now left | intros ->; contradiction].
          + intros [[<-|Hx] Hne]; auto. }
      assert (C1 : closure pending st1).
      { unfold bfs_closure, st1; simpl. split.
        - intros q cs'. rewrite app_assoc, in_app_iff.
          intros [H|[H|[]]].
          + destruct (Hpairs q cs' H). auto.
          + inversion H; subst. auto.
        - intros x [<-|Hx]; rewrite app_assoc, in_app_iff.
          + left. right. now left.
          + destruct (Hclosed x Hx) as [H|H]; [now left; left|].
            right. intros y Hyx. right. now apply H. }
      destruct (IH st1 pending p (or_intror Hp)
                  (fun y Hy => Hcs y (or_intror Hy)) S1 C1)
        as (S2 & C2 & I1 & I2 & L1).
      fold st1.
      split; [exact S2 | split; [exact C2 | split; [|split]]].
      * intros x Hx. apply I1. now right.
      * intros x [<-|Hx]; [apply I1; now left | now apply I2].
      * unfold st1 in L1 at 2 3. simpl in L1. rewrite length_app in L1.
        simpl in L1. lia.
Qed.

Lemma visit_parents_inv this : forall st ret st',
  sound st -> closure this st ->
  nx.visit_parents adj n this st = (ret, st') ->
  sound st'
  /\ List.length (nx.seen st') + List.length (nx.next_parents_children st)
     = List.length (nx.seen st) + List.length (nx.next_parents_children st')
  /\ (if ret then List.length (nx.seen st') = n else closure [] st').
Proof.
  induction this as [|[p cs] rest IH]; intros st ret st' Hs Hc Hrun; simpl in Hrun.
  - inversion Hrun; subst. auto.
  - destruct (proj1 Hc p cs (or_introl eq_refl)) as [-> Hp].
    destruct (visit_children_inv (adj p) st ((p, adj p) :: rest) p Hp
                (fun y Hy => Hy) Hs Hc) as (S1 & C1 & I1 & I2 & L1).
    set (st1 := nx.visit_children adj (adj p) st) in *.
    assert (C1' : closure rest st1).
    { destruct C1 as [Hpairs Hclosed]. split.
      - intros q cs' H. apply Hpairs. now right.
      - intros x Hx. destruct (Hclosed x Hx) as [[H|H]|H]; auto.
        inversion H; subst. right. intros y Hy. now apply I2. }
    destruct (Nat.eqb (List.length (nx.seen st1)) n) eqn:Hlen.
    + inversion Hrun; subst. apply Nat.eqb_eq in Hlen. auto.
    + destruct (IH st1 ret st' S1 C1' Hrun) as (S2 & L2 & R2).
      split; [exact S2 | split; [lia | exact R2]].
Qed.

Lemma reach_in_univ x t : clos_trans Status E x t -> In t univ.
Proof. induction 1; eauto. Qed.

Lemma seen_bound st : sound st -> List.length (nx.seen st) <= n.
Proof.
  intros (Hnd & Hin & _). subst n. now apply NoDup_incl_length.
Qed.

Lemma closed_reach st :
  sound st -> closure [] st -> nx.next_parents_children st = [] ->
  forall t, clos_trans Status E source t -> In t (nx.seen st).
Proof.
  intros (_ & _ & Hsrc & _) [_ Hclosed] Hnext.
  assert (Hstep : forall x y, In x (nx.seen st) -> In y (adj x) -> In y (nx.seen st)).
  { intros x y Hx Hy. destruct (Hclosed x Hx) as [H|H]; auto.
    rewrite Hnext in H. destruct H. }
  assert (Hall : forall x t, clos_trans Status E x t ->
                             In x (nx.seen st) -> In t (nx.seen st)).
  { induction 1; eauto. }
  intros t Ht. eapply Hall; eauto.
Qed.

Lemma full_reach st :
  sound st -> List.length (nx.seen st) = n ->
  forall t, clos_trans Status E source t -> In t (nx.seen st).
Proof.
  intros (Hnd & Hin & _) Hlen t Ht.
  apply (@NoDup_length_incl _ (nx.seen st) univ Hnd); [lia | assumption | ].
  eapply reach_in_univ; eauto.
Qed.

Lemma yielded_spec st :
  sound st ->
  (forall t, clos_trans Status E source t -> In t (nx.seen st)) ->
  forall t, In t (nx.yielded st) <-> t <> source /\ clos_trans Status E source t.
Proof.
  intros (_ & _ & _ & Hreach & Hy) Hall t. rewrite Hy. split.
  - intros [Hin Hne]. split; auto. destruct (Hreach t Hin); [contradiction | auto].
  - intros [Hne Ht]. auto.
Qed.

Lemma bfs_levels_spec fuel : forall st,
  sound st -> closure [] st ->
  (nx.next_parents_children st <> [] -> List.length (nx.seen st) + fuel > n) ->
  forall t, In t (nx.bfs_levels adj n fuel st)
            <-> t <> source /\ clos_trans Status E source t.
Proof.
  induction fuel as [|fuel IH]; intros st Hs Hc Hcount; cbn [nx.bfs_levels].
  - apply yielded_spec; auto. apply closed_reach; auto.
    destruct (nx.next_parents_children st); auto.
    pose proof (seen_bound st Hs). assert (p :: l <> []) by discriminate.
    apply Hcount in H0. lia.
  - destruct (nx.next_parents_children st) as [|p l] eqn:Hnext.
    + apply yielded_spec; auto. apply closed_reach; auto.
    + set (st0 := nx.mkBfs (nx.seen st) [] (nx.yielded st)).
      assert (S0 : sound st0) by exact Hs.
      assert (C0 : closure (p :: l) st0).
      { destruct Hc as [Hp Hcl]. unfold bfs_closure, st0; simpl.
        rewrite app_nil_r. simpl in Hp, Hcl. rewrite Hnext in Hp, Hcl. auto. }
      destruct (nx.visit_parents adj n (p :: l) st0) as [ret st'] eqn:Hrun.
      destruct (visit_parents_inv _ _ _ _ S0 C0 Hrun) as (S1 & L1 & R1).
      destruct ret.
      * apply yielded_spec; auto. now apply full_reach.
      * apply IH; auto. intros Hne. simpl in L1.
        assert (List.length (nx.next_parents_children st') > 0).
        { destruct (nx.next_parents_children st'); [congruence | simpl; lia]. }
        assert (List.length (nx.seen st) + S fuel > n)
          by (apply Hcount; discriminate).
        lia.
Qed.

Lemma bfs_children_spec :
  In source univ -> 0 < n ->
  forall t, In t (nx.bfs_children adj n source)
            <-> t <> source /\ clos_trans Status E source t.
Proof.
  intros Hsrc Hn. unfold nx.bfs_children. apply bfs_levels_spec.
  - unfold bfs_sound; simpl. split; [|split; [|split; [|split]]].
    + repeat constructor. simpl; tauto.
    + intros x [<-|[]]. assumption.
    + now left.
    + intros x [<-|[]]. now left.
    + intros x. split; [intros [] | intros [[<-|[]] Hne]; congruence].
  - unfold bfs_closure; simpl. split.
    + intros p cs [H|[]]. inversion H; subst. auto.
    + intros x [<-|[]]. left. now left.
  - simpl. lia.
Qed.
End BfsCorrect.

(** ** The graph operations keep the three dictionaries consistent *)

Lemma adj_mem_set {V : Type} (d : dict (dict V)) u v x a b :
  adj_mem (dict_set d u (dict_set (dict_get_default d u []) v x)) a b
  = (String.eqb u a && String.eqb v b) || adj_mem d a b.
Proof.
  unfold adj_mem, dict_get_default. rewrite dict_get_set.
  destruct (String.eqb_spec u a) as [->|Hne]; simpl; auto.
  rewrite dict_mem_set. destruct (dict_get d a); auto.
Qed.

Lemma adj_mem_set_empty {V : Type} (d : dict (dict V)) n a b :
  dict_mem d n = false -> adj_mem (dict_set d n []) a b = adj_mem d a b.
Proof.
  unfold adj_mem, dict_mem. intros Hn. rewrite dict_get_set.
  destruct (String.eqb_spec n a) as [->|Hne]; auto.
  destruct (dict_get d a); [discriminate | reflexivity].
Qed.

Lemma extends_refl g : extends g g.
Proof. unfold extends. auto. Qed.

Lemma extends_trans g1 g2 g3 : extends g1 g2 -> extends g2 g3 -> extends g1 g3.
Proof.
  unfold extends. intros (I1 & N1 & E1) (I2 & N2 & E2).
  split; [congruence | split; auto].
Qed.

Lemma wf_empty i : wf_graph (nx.empty i).
Proof. constructor; simpl; auto; try discriminate. constructor. Qed.

Section Register.
Variable g : nx.DiGraph.
Hypothesis Hwf : wf_graph g.

Lemma register_has_node n x :
  nx.has_node (nx.register g n) x = String.eqb n x || nx.has_node g x.
Proof.
  unfold nx.register. destruct (dict_mem (nx._succ g) n) eqn:E.
  - rewrite (wf_succ_keys g Hwf) in E.
    destruct (String.eqb_spec n x) as [->|]; simpl; auto.
  - unfold nx.has_node; simpl. apply dict_mem_set.
Qed.

Lemma register_has_successor n a b :
  nx.has_successor (nx.register g n) a b = nx.has_successor g a b.
Proof.
  unfold nx.register. destruct (dict_mem (nx._succ g) n) eqn:E; auto.
  now apply (adj_mem_set_empty (nx._succ g)).
Qed.

Lemma register_has_predecessor n a b :
  nx.has_predecessor (nx.register g n) a b = nx.has_predecessor g a b.
Proof.
  unfold nx.register. destruct (dict_mem (nx._succ g) n) eqn:E; auto.
  apply (adj_mem_set_empty (nx._pred g)).
  now rewrite (wf_pred_keys g Hwf), <- (wf_succ_keys g Hwf).
Qed.

Lemma register_ident n : nx.ident (nx.register g n) = nx.ident g.
Proof. unfold nx.register. now destruct (dict_mem (nx._succ g) n). Qed.

Lemma register_wf n : wf_graph (nx.register g n).
Proof.
  constructor.
  - intros x. rewrite register_has_node. unfold nx.register.
    destruct (dict_mem (nx._succ g) n) eqn:E; simpl.
    + rewrite (wf_succ_keys g Hwf).
      destruct (String.eqb_spec n x) as [->|]; simpl; auto.
      now rewrite <- (wf_succ_keys g Hwf).
    + now rewrite dict_mem_set, (wf_succ_keys g Hwf).
  - intros x. rewrite register_has_node. unfold nx.register.
    destruct (dict_mem (nx._succ g) n) eqn:E; simpl.
    + rewrite (wf_pred_keys g Hwf).
      destruct (String.eqb_spec n x) as [->|]; simpl; auto.
      now rewrite <- (wf_succ_keys g Hwf).
    + now rewrite dict_mem_set, (wf_pred_keys g Hwf).
  - intros u v. rewrite register_has_successor, register_has_node.
    intros H. rewrite (wf_edge_nodes g Hwf u v H). apply orb_true_r.
  - intros u v. rewrite register_has_successor, register_has_predecessor.
    apply (wf_mirror g Hwf).
  - unfold nx.register. destruct (dict_mem (nx._succ g) n); simpl.
    + apply (wf_nodup g Hwf).
    + apply dict_set_nodup, (wf_nodup g Hwf).
Qed.

Lemma register_extends n : extends g (nx.register g n).
Proof.
  split; [apply register_ident | split].
  - intros x H. rewrite register_has_node, H. apply orb_true_r.
  - intros a b H. now rewrite register_has_successor.
Qed.

Lemma add_node_register n : nx.add_node g n = nx.register g n.
Proof.
  unfold nx.add_node, nx.register.
  now rewrite (wf_succ_keys g Hwf).
Qed.
End Register.

Section AddEdge.
Variable g : nx.DiGraph.
Hypothesis Hwf : wf_graph g.
Variables (u v : Status) (dd : nx.Attrs).

Local Abbreviation g1 := (nx.register (nx.register g u) v).

Lemma g1_wf : wf_graph g1.
Proof. apply register_wf, register_wf, Hwf. Qed.

Lemma g1_has_node x :
  nx.has_node g1 x = String.eqb u x || String.eqb v x || nx.has_node g x.
Proof.
  rewrite register_has_node by (apply register_wf, Hwf).
  rewrite register_has_node by exact Hwf.
  destruct (String.eqb u x), (String.eqb v x); reflexivity.
Qed.

Lemma add_edge_has_node x :
  nx.has_node (nx.add_edge g u v dd) x
  = String.eqb u x || String.eqb v x || nx.has_node g x.
Proof. unfold nx.add_edge. apply g1_has_node. Qed.

Lemma add_edge_has_successor a b :
  nx.has_successor (nx.add_edge g u v dd) a b
  = (String.eqb u a && String.eqb v b) || nx.has_successor g a b.
Proof.
  unfold nx.add_edge.
  change (nx.has_successor ?x a b) with (adj_mem (nx._succ x) a b); simpl.
  rewrite adj_mem_set.
  change (adj_mem (nx._succ ?x) a b) with (nx.has_successor x a b).
  rewrite register_has_successor by (apply register_wf, Hwf).
  now rewrite register_has_successor by exact Hwf.
Qed.

Lemma add_edge_has_predecessor a b :
  nx.has_predecessor (nx.add_edge g u v dd) a b
  = (String.eqb v a && String.eqb u b) || nx.has_predecessor g a b.
Proof.
  unfold nx.add_edge.
  change (nx.has_predecessor ?x a b) with (adj_mem (nx._pred x) a b); simpl.
  rewrite adj_mem_set.
  change (adj_mem (nx._pred ?x) a b) with (nx.has_predecessor x a b).
  rewrite register_has_predecessor by (apply register_wf, Hwf).
  now rewrite register_has_predecessor by exact Hwf.
Qed.

Lemma add_edge_wf : wf_graph (nx.add_edge g u v dd).
Proof.
  pose proof g1_wf as W1.
  constructor.
  - intros x. rewrite add_edge_has_node. unfold nx.add_edge; simpl.
    rewrite dict_mem_set, (wf_succ_keys _ W1), g1_has_node.
    destruct (String.eqb u x), (String.eqb v x); reflexivity.
  - intros x. rewrite add_edge_has_node. unfold nx.add_edge; simpl.
    rewrite dict_mem_set, (wf_pred_keys _ W1), g1_has_node.
    destruct (String.eqb u x), (String.eqb v x); reflexivity.
  - intros a b. rewrite add_edge_has_successor, add_edge_has_node.
    destruct (String.eqb_spec v b) as [->|]; [intros _; now rewrite orb_true_r|].
    rewrite andb_false_r. simpl. intros H.
    rewrite (wf_edge_nodes g Hwf a b H). apply orb_true_r.
  - intros a b. rewrite add_edge_has_successor, add_edge_has_predecessor.
    rewrite (wf_mirror g Hwf). now rewrite andb_comm.
  - unfold nx.add_edge, nx.nodes; simpl. apply (wf_nodup _ W1).
Qed.

Lemma add_edge_extends : extends g (nx.add_edge g u v dd).
Proof.
  split; [|split].
  - unfold nx.add_edge; simpl.
    rewrite register_ident by (apply register_wf, Hwf).
    now rewrite register_ident by exact Hwf.
  - intros x H. rewrite add_edge_has_node, H. apply orb_true_r.
  - intros a b H. rewrite add_edge_has_successor, H. apply orb_true_r.
Qed.

Lemma add_edge_edge : nx.has_successor (nx.add_edge g u v dd) u v = true.
Proof. rewrite add_edge_has_successor. now rewrite !String.eqb_refl. Qed.
End AddEdge.

(** ** Loops *)

Lemma for_each_inv {A S : Type} (body : S -> A -> result S)
  (Inv : S -> Prop) (R : S -> S -> Prop) (Q : A -> S -> Prop) :
  (forall s, R s s) ->
  (forall s1 s2 s3, R s1 s2 -> R s2 s3 -> R s1 s3) ->
  (forall x s s', Q x s -> R s s' -> Q x s') ->
  forall xs,
    (forall s x s', In x xs -> Inv s -> body s x = inr s' ->
                    Inv s' /\ R s s' /\ Q x s') ->
    forall s s', Inv s -> for_each body xs s = inr s' ->
                 Inv s' /\ R s s' /\ forall x, In x xs -> Q x s'.
Proof.
  intros Rrefl Rtrans Qmono xs. induction xs as [|x xs IH]; intros Hbody s s' Hs Hrun.
  - simpl in Hrun. inversion Hrun; subst. repeat split; auto. intros x [].
  - simpl in Hrun. unfold bind in Hrun.
    destruct (body s x) as [e|s1] eqn:Hb; [discriminate|].
    destruct (Hbody s x s1 (or_introl eq_refl) Hs Hb) as (I1 & R1 & Q1).
    destruct (IH (fun s0 y s0' Hy => Hbody s0 y s0' (or_intror Hy)) s1 s' I1 Hrun)
      as (I2 & R2 & Q2).
    split; [assumption | split; [eauto|]].
    intros y [<-|Hy]; eauto.
Qed.

Lemma add_nodes_from_spec ns : forall g,
  wf_graph g ->
  wf_graph (nx.add_nodes_from g ns)
  /\ extends g (nx.add_nodes_from g ns)
  /\ forall x, In x ns -> nx.has_node (nx.add_nodes_from g ns) x = true.
Proof.
  unfold nx.add_nodes_from.
  induction ns as [|n ns IH]; intros g Hwf; simpl.
  - split; [assumption | split; [apply extends_refl | intros x []]].
  - rewrite (add_node_register g Hwf).
    destruct (IH (nx.register g n) (register_wf g Hwf n)) as (W & X & N).
    split; [assumption | split].
    + eapply extends_trans; [apply (register_extends g Hwf) | exact X].
    + intros x [<-|Hx]; auto.
      apply X. rewrite (register_has_node g Hwf). now rewrite String.eqb_refl.
Qed.

Lemma add_edges_from_spec es g g' :
  wf_graph g -> nx.add_edges_from g es = inr g' ->
  wf_graph g' /\ extends g g'
  /\ forall u v dd, In (u, v, dd) es ->
       exists v', v = PStr v' /\ nx.has_successor g' u v' = true.
Proof.
  intros Hwf Hrun.
  destruct (for_each_inv nx.add_edge_item wf_graph extends
              (fun e g0 => exists v', snd (fst e) = PStr v'
                                      /\ nx.has_successor g0 (fst (fst e)) v' = true)
              extends_refl extends_trans) with (xs := es) (s := g) (s' := g')
    as (W & X & Q); auto.
  - intros [[u v] dd] g1 g2 [v' [Hv He]] Hx. exists v'. split; auto.
    now apply Hx.
  - intros g1 [[u v] dd] g2 _ W1 Hb. simpl in Hb.
    destruct v as [|v'| |]; try discriminate.
    assert (Hg2 : exists d, g2 = nx.add_edge g1 u v' d).
    { destruct dd as [[| | |d]|]; try discriminate;
        inversion Hb; eauto. }
    destruct Hg2 as [d ->].
    split; [now apply add_edge_wf | split; [now apply add_edge_extends|]].
    exists v'. split; auto. now apply add_edge_edge.
  - split; [assumption | split; [assumption|]].
    intros u v dd Hin. apply (Q (u, v, dd) Hin).
Qed.

(** ** What construction establishes *)

Lemma py_getitem_key t a edges :
  py_getitem t a = inr edges ->
  exists items, t = PDict items /\ dict_get items a = Some edges
                /\ In a (dict_keys items).
Proof.
  destruct t as [| | |items]; simpl; try discriminate.
  destruct (dict_get items a) as [x|] eqn:E; [|discriminate].
  intros H. inversion H; subst. exists items. repeat split; auto.
  apply dict_mem_In. unfold dict_mem. now rewrite E.
Qed.

Lemma init_body_spec t node graph validations graph' validations' :
  wf_graph graph ->
  (let* edges := py_getitem t node in
   match edges with
   | PDict items =>
       let edges_to_add :=
         map (fun ea => (node, PStr (fst ea), Some (snd ea))) items in
       let* vals := _add_transition_validations validations node items in
       let* g := nx.add_edges_from graph edges_to_add in
       inr (g, vals)
   | _ =>
       let* targets := py_iter edges in
       let edges_to_add := map (fun edge => (node, edge, @None PyVal)) targets in
       let* g := nx.add_edges_from graph edges_to_add in
       inr (g, validations)
   end) = inr (graph', validations') ->
  wf_graph graph' /\ extends graph graph'
  /\ forall b, declares t node b -> nx.has_successor graph' node b = true.
Proof.
  intros Hwf Hb. unfold bind in Hb.
  destruct (py_getitem t node) as [e|edges] eqn:Hget; [discriminate|].
  assert (Hplain :
    forall targets g,
      py_iter edges = inr targets ->
      (match edges with PDict _ => False | _ => True end) ->
      nx.add_edges_from graph (map (fun edge => (node, edge, @None PyVal)) targets)
      = inr g ->
      wf_graph g /\ extends graph g
      /\ forall b, declares t node b -> nx.has_successor g node b = true).
  { intros targets g Hit Hnd Hadd.
    destruct (add_edges_from_spec _ _ _ Hwf Hadd) as (W & X & Q).
    split; [assumption | split; [assumption|]].
    intros b [edges' [Hget' Hdecl]]. rewrite Hget in Hget'.
    inversion Hget'; subst edges'.
    assert (Hin : In (PStr b) targets).
    { destruct edges; try contradiction;
        destruct Hdecl as [ts [Hts Hin]]; rewrite Hit in Hts;
        inversion Hts; now subst. }
    destruct (Q node (PStr b) None) as [v' [Hv He]].
    - apply in_map_iff. exists (PStr b). auto.
    - inversion Hv; now subst. }
  destruct edges as [|s|xs|items].
  - destruct (py_iter PNone) as [e|targets] eqn:Hit; [discriminate|].
    destruct (nx.add_edges_from graph _) as [e|g] eqn:Hadd; [discriminate|].
    inversion Hb; subst. eapply Hplain; eauto; exact I.
  - destruct (py_iter (PStr s)) as [e|targets] eqn:Hit; [discriminate|].
    destruct (nx.add_edges_from graph _) as [e|g] eqn:Hadd; [discriminate|].
    inversion Hb; subst. eapply Hplain; eauto; exact I.
  - destruct (py_iter (PList xs)) as [e|targets] eqn:Hit; [discriminate|].
    destruct (nx.add_edges_from graph _) as [e|g] eqn:Hadd; [discriminate|].
    inversion Hb; subst. eapply Hplain; eauto; exact I.
  - destruct (_add_transition_validations validations node items)
      as [e|vals] eqn:Hval; [discriminate|].
    simpl in Hb.
    destruct (nx.add_edges_from graph _) as [e|g] eqn:Hadd; [discriminate|].
    inversion Hb; subst.
    destruct (add_edges_from_spec _ _ _ Hwf Hadd) as (W & X & Q).
    split; [assumption | split; [assumption|]].
    intros b [edges' [Hget' Hdecl]]. rewrite Hget in Hget'.
    inversion Hget'; subst edges'.
    unfold dict_keys in Hdecl. apply in_map_iff in Hdecl.
    destruct Hdecl as [[b' attr] [Hb' Hin]]. simpl in Hb'. subst b'.
    destruct (Q node (PStr b) (Some attr)) as [v' [Hv He]].
    + apply in_map_iff. exists (b, attr). auto.
    + inversion Hv; now subst.
Qed.

Lemma init_spec i t m :
  __init__ i t = inr m ->
  wf_graph (_graph m)
  /\ nx.ident (_graph m) = i
  /\ (forall k, top_level_key t k -> nx.has_node (_graph m) k = true)
  /\ (forall a b, declares t a b -> nx.has_successor (_graph m) a b = true).
Proof.
  unfold __init__, bind. intros Hinit.
  destruct (py_keys t) as [e|keys] eqn:Hkeys; [discriminate|].
  destruct (add_nodes_from_spec keys (nx.empty i) (wf_empty i)) as (W0 & X0 & N0).
  set (graph0 := nx.add_nodes_from (nx.empty i) keys) in *.
  match type of Hinit with
  | match for_each ?bd ?l0 ?s0 with _ => _ end = _ =>
      destruct (for_each bd l0 s0) as [e|self] eqn:Hloop; [discriminate|];
      destruct (for_each_inv bd
                  (fun s => wf_graph (fst s))
                  (fun s s' => extends (fst s) (fst s'))
                  (fun node s => forall b, declares t node b ->
                                           nx.has_successor (fst s) node b = true))
        with (xs := l0) (s := s0) (s' := self) as (W & X & Q); auto
  end.
  - intros s. apply extends_refl.
  - intros s1 s2 s3. apply extends_trans.
  - intros node s s' Hq Hx b Hd. apply Hx. now apply Hq.
  - intros [graph validations] node [graph' validations'] _ Hw Hb.
    simpl in Hw. simpl.
    exact (init_body_spec t node graph validations graph' validations' Hw Hb).
  - inversion Hinit; subst; simpl in *.
    split; [assumption | split; [|split]].
    + destruct X as (Hi & _). rewrite Hi. apply X0.
    + intros k [keys' [Hk Hin]]. rewrite Hkeys in Hk. inversion Hk; subst.
      apply X. now apply N0.
    + intros a b Hd. apply Q; auto.
      destruct Hd as [edges [Hget _]].
      destruct (py_getitem_key _ _ _ Hget) as [items [-> [_ Hin]]].
      simpl in Hkeys. inversion Hkeys; subst.
      unfold nx.nodes. apply dict_mem_In. now apply N0.
Qed.

(** ** Ancestors and descendants are transitive reachability *)

Lemma clos_trans_ext {A : Type} (R1 R2 : A -> A -> Prop) :
  (forall x y, R1 x y -> R2 x y) ->
  forall x y, clos_trans A R1 x y -> clos_trans A R2 x y.
Proof.
  intros H x y Hc. induction Hc.
  - apply t_step. auto.
  - eapply t_trans; eauto.
Qed.

Lemma clos_trans_rev {A : Type} (R : A -> A -> Prop) x y :
  clos_trans A (fun a b => R b a) x y -> clos_trans A R y x.
Proof.
  intros Hc. induction Hc.
  - now apply t_step.
  - eapply t_trans; eauto.
Qed.

Lemma succ_list_In g x y :
  In y (nx.succ_list g x) <-> nx.has_successor g x y = true.
Proof.
  unfold nx.succ_list, nx.successors, nx.has_successor.
  destruct (dict_get (nx._succ g) x) as [adj|].
  - symmetry. apply dict_mem_In.
  - simpl. split; [tauto | discriminate].
Qed.

Lemma pred_list_In g x y :
  In y (nx.pred_list g x) <-> nx.has_predecessor g x y = true.
Proof.
  unfold nx.pred_list, nx.predecessors, nx.has_predecessor.
  destruct (dict_get (nx._pred g) x) as [adj|].
  - symmetry. apply dict_mem_In.
  - simpl. split; [tauto | discriminate].
Qed.

Lemma has_node_In g x : nx.has_node g x = true <-> In x (nx.nodes g).
Proof. apply dict_mem_In. Qed.

Lemma number_of_nodes_length g :
  nx.number_of_nodes g = List.length (nx.nodes g).
Proof. unfold nx.number_of_nodes, nx.nodes. now rewrite dict_keys_length. Qed.

Lemma edge_nodes g a b :
  wf_graph g -> nx.has_successor g a b = true ->
  nx.has_node g a = true /\ nx.has_node g b = true.
Proof.
  intros Hwf H. split; [|eapply wf_edge_nodes; eauto].
  rewrite <- (wf_succ_keys g Hwf). unfold nx.has_successor in H.
  unfold dict_mem. now destruct (dict_get (nx._succ g) a).
Qed.

Section Reachability.
Variable g : nx.DiGraph.
Hypothesis Hwf : wf_graph g.
Variable s : Status.
Hypothesis Hs : nx.has_node g s = true.

Lemma nodes_nonempty : 0 < nx.number_of_nodes g.
Proof.
  rewrite number_of_nodes_length. apply has_node_In in Hs.
  destruct (nx.nodes g); [destruct Hs | simpl; lia].
Qed.

Lemma descendants_spec :
  exists l, nx.descendants g s = inr l
            /\ forall t, set_mem t l = true <-> t <> s /\ reachable g s t.
Proof.
  unfold nx.descendants, bind, nx.successors.
  pose proof Hs as Hk. rewrite <- (wf_succ_keys g Hwf) in Hk.
  unfold dict_mem in Hk.
  destruct (dict_get (nx._succ g) s) as [adj|]; [|discriminate].
  eexists. split; [reflexivity|]. intros t. rewrite set_mem_In.
  rewrite (bfs_children_spec (nx.succ_list g) (nx.nodes g) s
             (nx.number_of_nodes g) (number_of_nodes_length g)).
  - unfold reachable. split; intros [Hne Hr]; split; auto;
      revert Hr; apply clos_trans_ext; intros x y; apply succ_list_In.
  - intros x y Hy. apply has_node_In. apply succ_list_In in Hy.
    eapply wf_edge_nodes; eauto.
  - now apply has_node_In.
  - apply nodes_nonempty.
Qed.

Lemma ancestors_spec :
  exists l, nx.ancestors g s = inr l
            /\ forall t, set_mem t l = true <-> t <> s /\ reachable g t s.
Proof.
  unfold nx.ancestors, bind, nx.predecessors.
  pose proof Hs as Hk. rewrite <- (wf_pred_keys g Hwf) in Hk.
  unfold dict_mem in Hk.
  destruct (dict_get (nx._pred g) s) as [adj|]; [|discriminate].
  eexists. split; [reflexivity|]. intros t. rewrite set_mem_In.
  rewrite (bfs_children_spec (nx.pred_list g) (nx.nodes g) s
             (nx.number_of_nodes g) (number_of_nodes_length g)).
  - unfold reachable. split; intros [Hne Hr]; split; auto.
    + apply clos_trans_rev. revert Hr. apply clos_trans_ext. intros x y Hy.
      apply pred_list_In in Hy. unfold edge. now rewrite <- (wf_mirror g Hwf).
    + apply (clos_trans_rev (fun a b => In b (nx.pred_list g a))).
      revert Hr. apply clos_trans_ext. intros x y Hy.
      apply pred_list_In. unfold edge in Hy. now rewrite (wf_mirror g Hwf).
  - intros x y Hy. apply has_node_In. apply pred_list_In in Hy.
    rewrite (wf_mirror g Hwf) in Hy. exact (proj1 (edge_nodes g y x Hwf Hy)).
  - now apply has_node_In.
  - apply nodes_nonempty.
Qed.
End Reachability.

(** ** The cache returns what the cached function returns *)

Lemma firstn_incl {A : Type} n (l : list A) : incl (firstn n l) l.
Proof.
  revert l. induction n as [|n IH]; intros l; simpl.
  - intros z Hz. destruct Hz.
  - destruct l as [|x l]; [apply incl_refl|].
    intros z [<-|Hz]; [now left | right; now apply IH].
Qed.

Lemma key_eqb_eq k1 k2 : key_eqb k1 k2 = true <-> k1 = k2.
Proof.
  destruct k1 as [i1 s1], k2 as [i2 s2]. unfold key_eqb; simpl.
  rewrite andb_true_iff, Nat.eqb_eq, String.eqb_eq.
  split; [intros [-> ->]; reflexivity | intros H; inversion H; auto].
Qed.

Lemma lru_lookup_In c k v : lru_lookup c k = Some v -> In (k, v) c.
Proof.
  induction c as [|[k' v'] c IH]; simpl; [discriminate|].
  destruct (key_eqb k' k) eqn:E.
  - apply key_eqb_eq in E. intros H. inversion H; subst. now left.
  - intros H. right. auto.
Qed.

Section LruCache.
Variable f : nx.DiGraph -> Status -> result (list Status).
Variable g : nx.DiGraph.

Lemma lru_cache_result c s :
  lru_valid f g c -> fst (lru_cache f c g s) = f g s.
Proof.
  intros Hv. unfold lru_cache.
  destruct (lru_lookup (entries c) (nx.ident g, s)) as [v|] eqn:E; cbn [fst].
  - apply lru_lookup_In in E. unfold lru_valid in Hv.
    rewrite Forall_forall in Hv. symmetry. apply (Hv _ E). reflexivity.
  - destruct (f g s); reflexivity.
Qed.

(** A call on any graph [g'] keeps the entries of [g] right, provided a
    different graph has a different identity. *)
Lemma lru_cache_valid c g' s :
  (nx.ident g' = nx.ident g -> g' = g) ->
  lru_valid f g c -> lru_valid f g (snd (lru_cache f c g' s)).
Proof.
  intros Hid Hv. unfold lru_cache.
  destruct (lru_lookup (entries c) (nx.ident g', s)) as [v|] eqn:E;
    cbn [snd entries].
  - apply lru_lookup_In in E. unfold lru_valid in *.
    rewrite Forall_forall in Hv. constructor.
    + exact (Hv _ E).
    + apply Forall_forall. intros e He. apply Hv.
      unfold lru_remove in He. apply filter_In in He. tauto.
  - destruct (f g' s) as [e|v] eqn:Hf; cbn [snd entries]; auto.
    unfold lru_valid in *. rewrite Forall_forall in *.
    intros e He. apply firstn_incl in He. destruct He as [<-|He]; auto.
    cbn [fst snd]. intros Hi. rewrite (Hid Hi) in Hf. exact Hf.
Qed.
End LruCache.

Lemma caches_valid_empty g : caches_valid g empty_caches.
Proof. split; constructor. Qed.

(** ** The classifier *)

Lemma validate_transition_raised self a b c anc desc :
  nx.has_node (_graph self) a = true ->
  nx.has_node (_graph self) b = true ->
  a <> b ->
  nx.has_successor (_graph self) a b = false ->
  caches_valid (_graph self) c ->
  nx.ancestors (_graph self) a = inr anc ->
  nx.descendants (_graph self) a = inr desc ->
  fst (validate_transition self a b c)
  = inl (raised (set_mem b anc) (set_mem b desc) a b).
Proof.
  intros Ha Hb Hne Hedge [Hva Hvd] Hanc Hdesc.
  unfold validate_transition. rewrite Ha, Hb, Hedge.
  apply String.eqb_neq in Hne. rewrite Hne. cbn [negb orb].
  pose proof (lru_cache_result nx.ancestors (_graph self) _ a Hva) as Ra.
  pose proof (lru_cache_result nx.descendants (_graph self) _ a Hvd) as Rd.
  unfold get_ancestors, get_descendants.
  destruct (lru_cache nx.ancestors (ancestors_cache c) (_graph self) a) as [ra ac].
  destruct (lru_cache nx.descendants (descendants_cache c) (_graph self) a) as [rd dc].
  cbn [fst] in Ra, Rd. rewrite Hanc in Ra. rewrite Hdesc in Rd. subst ra rd.
  unfold raised.
  destruct (set_mem b anc), (set_mem b desc); reflexivity.
Qed.

Lemma validate_transition_caches self a b c :
  (ancestors_cache (snd (validate_transition self a b c)) = ancestors_cache c
   \/ ancestors_cache (snd (validate_transition self a b c))
      = snd (lru_cache nx.ancestors (ancestors_cache c) (_graph self) a))
  /\ (descendants_cache (snd (validate_transition self a b c)) = descendants_cache c
      \/ descendants_cache (snd (validate_transition self a b c))
         = snd (lru_cache nx.descendants (descendants_cache c) (_graph self) a)).
Proof.
  unfold validate_transition, get_ancestors, get_descendants.
  destruct (negb (nx.has_node (_graph self) a)); [auto|].
  destruct (negb (nx.has_node (_graph self) b)); [auto|].
  destruct (String.eqb a b || nx.has_successor (_graph self) a b); [auto|].
  destruct (lru_cache nx.ancestors (ancestors_cache c) (_graph self) a) as [[e|anc] ac];
    [cbn; auto|].
  destruct (lru_cache nx.descendants (descendants_cache c) (_graph self) a)
    as [[e|desc] dc]; [cbn; auto|].
  destruct (set_mem b anc), (set_mem b desc); cbn; auto.
Qed.

Lemma validate_transition_valid g self a b c :
  (nx.ident (_graph self) = nx.ident g -> _graph self = g) ->
  caches_valid g c -> caches_valid g (snd (validate_transition self a b c)).
Proof.
  intros Hid [Hva Hvd].
  destruct (validate_transition_caches self a b c) as [[Ea|Ea] [Ed|Ed]];
    split; rewrite ?Ea, ?Ed; auto using lru_cache_valid.
Qed.

Lemma validate_transition_found self a b c :
  nx.has_node (_graph self) a = true ->
  nx.has_node (_graph self) b = true ->
  forall msg, fst (validate_transition self a b c) <> inl (StatusNotFoundError msg).
Proof.
  intros Ha Hb msg. unfold validate_transition, get_ancestors, get_descendants.
  rewrite Ha, Hb. cbn [negb].
  destruct (String.eqb a b || nx.has_successor (_graph self) a b); [discriminate|].
  unfold lru_cache.
  assert (Hanc : forall e, nx.ancestors (_graph self) a = inl e -> e = NetworkXError).
  { unfold nx.ancestors, bind, nx.predecessors. intros e.
    destruct (dict_get (nx._pred (_graph self)) a); [discriminate|].
    intros H; now inversion H. }
  assert (Hdesc : forall e, nx.descendants (_graph self) a = inl e -> e = NetworkXError).
  { unfold nx.descendants, bind, nx.successors. intros e.
    destruct (dict_get (nx._succ (_graph self)) a); [discriminate|].
    intros H; now inversion H. }
  destruct (lru_lookup (entries (ancestors_cache c)) _) as [anc|].
  - destruct (lru_lookup (entries (descendants_cache c)) _) as [desc|].
    + destruct (set_mem b anc), (set_mem b desc); discriminate.
    + destruct (nx.descendants (_graph self) a) as [e|desc] eqn:Hd.
      * rewrite (Hdesc e eq_refl). discriminate.
      * destruct (set_mem b anc), (set_mem b desc); discriminate.
  - destruct (nx.ancestors (_graph self) a) as [e|anc] eqn:Ha'.
    + rewrite (Hanc e eq_refl). discriminate.
    + destruct (lru_lookup (entries (descendants_cache c)) _) as [desc|].
      * destruct (set_mem b anc), (set_mem b desc); discriminate.
      * destruct (nx.descendants (_graph self) a) as [e|desc] eqn:Hd.
        -- rewrite (Hdesc e eq_refl). discriminate.
        -- destruct (set_mem b anc), (set_mem b desc); discriminate.
Qed.

(** ** Properties of the classifier *)

(** C1. For every node [s], [validate_transition(s, s)] returns, and for
    every declared edge [a -> b] (an edge of the graph, or a target the
    specification declares) [validate_transition(a, b)] returns; in both
    cases the cache tables and their call counters are left as they were, so
    neither [get_ancestors] nor [get_descendants] was called. *)
Theorem validate_transition_self_or_edge i transitions self a b c :
  __init__ i transitions = inr self ->
  (a = b /\ nx.has_node (_graph self) a = true)
  \/ nx.has_successor (_graph self) a b = true
  \/ declares transitions a b ->
  validate_transition self a b c = (inr tt, c).
Proof.
  intros Hinit Hcase.
  destruct (init_spec _ _ _ Hinit) as (Hwf & _ & _ & Hdecl).
  assert (H : nx.has_node (_graph self) a = true
              /\ nx.has_node (_graph self) b = true
              /\ String.eqb a b || nx.has_successor (_graph self) a b = true).
  { destruct Hcase as [[-> Hs]|[He|Hd]].
    - rewrite String.eqb_refl. auto.
    - destruct (edge_nodes _ _ _ Hwf He). rewrite He, orb_true_r. auto.
    - pose proof (Hdecl _ _ Hd) as He.
      destruct (edge_nodes _ _ _ Hwf He). rewrite He, orb_true_r. auto. }
  destruct H as (Ha & Hb & Hshort).
  unfold validate_transition. now rewrite Ha, Hb, Hshort.
Qed.

Lemma validate_transition_self_or_edge_witness :
  validate_transition chain_map "c" "c" empty_caches = (inr tt, empty_caches)
  /\ validate_transition chain_map "a" "b" empty_caches = (inr tt, empty_caches)
  /\ validate_transition chain_map "b" "c" empty_caches = (inr tt, empty_caches).
Proof.
  split; [|split].
  - apply (validate_transition_self_or_edge 1 chain_spec); [reflexivity|].
    left. split; reflexivity.
  - apply (validate_transition_self_or_edge 1 chain_spec); [reflexivity|].
    right. left. reflexivity.
  - apply (validate_transition_self_or_edge 1 chain_spec); [reflexivity|].
    right. right. exists (PDict [("c", PDict [("validation", PList [PStr "h1"; PStr "h2"])])]).
    split; [reflexivity | simpl; auto].
Defined.

(** C5. When [from_status] or [to_status] is not a node,
    [validate_transition] raises [StatusNotFoundError] with the message that
    names the absent status, [from_status] when both are absent; the cache
    tables and their call counters are left as they were. *)
Theorem validate_transition_status_not_found self a b c :
  nx.has_node (_graph self) a = false \/ nx.has_node (_graph self) b = false ->
  validate_transition self a b c
  = (inl (StatusNotFoundError
            (if nx.has_node (_graph self) a
             then "to_status " ++ b ++ " not found"
             else "from_status " ++ a ++ " not found")), c).
Proof.
  intros H. unfold validate_transition.
  destruct (nx.has_node (_graph self) a); cbn [negb]; [|reflexivity].
  destruct H as [H|H]; [discriminate|]. now rewrite H.
Qed.

Lemma validate_transition_status_not_found_witness :
  validate_transition chain_map "nowhere" "never" empty_caches
  = (inl (StatusNotFoundError "from_status nowhere not found"), empty_caches)
  /\ validate_transition chain_map "a" "never" empty_caches
     = (inl (StatusNotFoundError "to_status never not found"), empty_caches).
Proof.
  split.
  - apply (validate_transition_status_not_found chain_map "nowhere" "never").
    left. reflexivity.
  - apply (validate_transition_status_not_found chain_map "a" "never").
    right. reflexivity.
Defined.

Lemma classify_spec i transitions self a b c :
  __init__ i transitions = inr self ->
  caches_valid (_graph self) c ->
  nx.has_node (_graph self) a = true ->
  nx.has_node (_graph self) b = true ->
  a <> b ->
  nx.has_successor (_graph self) a b = false ->
  exists is_ancestor is_descendant,
    fst (validate_transition self a b c)
    = inl (raised is_ancestor is_descendant a b)
    /\ (is_ancestor = true <-> reachable (_graph self) b a)
    /\ (is_descendant = true <-> reachable (_graph self) a b).
Proof.
  intros Hinit Hv Ha Hb Hne He.
  destruct (init_spec _ _ _ Hinit) as (Hwf & _).
  destruct (ancestors_spec _ Hwf a Ha) as [anc [Hanc Sanc]].
  destruct (descendants_spec _ Hwf a Ha) as [desc [Hdesc Sdesc]].
  exists (set_mem b anc), (set_mem b desc).
  split; [now apply validate_transition_raised|].
  rewrite Sanc, Sdesc. split; split; try tauto; intros H; split; auto.
Qed.

Lemma raised_ambiguous ia id a b msg :
  raised ia id a b = AmbiguousTransitionError msg -> ia = true /\ id = true.
Proof. unfold raised. destruct ia, id; simpl; intros H; now inversion H. Qed.

Lemma ranked_acyclic g (rank : Status -> nat) :
  (forall x y, edge g x y -> rank x < rank y) -> acyclic g.
Proof.
  intros Hrank x Hx.
  assert (H : forall a b, reachable g a b -> rank a < rank b).
  { intros a b Hab. induction Hab; [auto | lia]. }
  specialize (H x x Hx). lia.
Qed.

Lemma reachable_first_edge g x y :
  reachable g x y -> exists z, nx.has_successor g x z = true.
Proof. intros H. induction H; eauto. Qed.

Lemma chain_edges x y :
  edge (_graph chain_map) x y -> chain_rank x < chain_rank y.
Proof.
  unfold edge. intros H.
  assert (Hinit : __init__ 1 chain_spec = inr chain_map) by reflexivity.
  destruct (init_spec _ _ _ Hinit) as (Hwf & _).
  destruct (edge_nodes _ _ _ Hwf H) as [Hx Hy].
  apply has_node_In in Hx, Hy. vm_compute in Hx, Hy.
  repeat (destruct Hx as [<-|Hx]; [|]); try contradiction;
    repeat (destruct Hy as [<-|Hy]; [|]); try contradiction;
    vm_compute in H; try discriminate; apply Nat.ltb_lt; reflexivity.
Qed.

Lemma chain_acyclic : acyclic (_graph chain_map).
Proof. apply (ranked_acyclic _ chain_rank), chain_edges. Qed.

(** C2. In an acyclic graph with the edges [a -> b] and [b -> c] and no
    edge [a -> c], [validate_transition(a, c)] raises
    [FutureTransitionError] and [validate_transition(c, a)] raises
    [PastTransitionError]. *)
Theorem validate_transition_future_and_past i transitions self a b c cs cs' :
  __init__ i transitions = inr self ->
  caches_valid (_graph self) cs ->
  caches_valid (_graph self) cs' ->
  acyclic (_graph self) ->
  edge (_graph self) a b ->
  edge (_graph self) b c ->
  nx.has_successor (_graph self) a c = false ->
  fst (validate_transition self a c cs)
  = inl (FutureTransitionError
           ("from " ++ a ++ " to " ++ c ++ " should happen in the future"))
  /\ fst (validate_transition self c a cs')
     = inl (PastTransitionError
              ("from " ++ c ++ " to " ++ a ++ " should have happened in the past")).
Proof.
  intros Hinit Hv Hv' Hacyc Hab Hbc Hac.
  destruct (init_spec _ _ _ Hinit) as (Hwf & _).
  destruct (edge_nodes _ _ _ Hwf Hab) as [Ha _].
  destruct (edge_nodes _ _ _ Hwf Hbc) as [_ Hc].
  assert (Hreach : reachable (_graph self) a c).
  { eapply t_trans; apply t_step; eauto. }
  assert (Hback : ~ reachable (_graph self) c a).
  { intros H. apply (Hacyc a). eapply t_trans; eauto. }
  assert (Hne : a <> c).
  { intros ->. now apply (Hacyc c). }
  assert (Hca : nx.has_successor (_graph self) c a = false).
  { destruct (nx.has_successor (_graph self) c a) eqn:E; auto.
    exfalso. apply Hback. now apply t_step. }
  split.
  - destruct (classify_spec _ _ _ a c cs Hinit Hv Ha Hc Hne Hac)
      as (ia & id & -> & Hia & Hid).
    destruct ia; [exfalso; apply Hback; now apply Hia|].
    destruct id; [reflexivity|].
    apply Hid in Hreach. discriminate.
  - destruct (classify_spec _ _ _ c a cs' Hinit Hv' Hc Ha (not_eq_sym Hne) Hca)
      as (ia & id & -> & Hia & Hid).
    destruct id; [exfalso; apply Hback; now apply Hid|].
    destruct ia; [reflexivity|].
    apply Hia in Hreach. discriminate.
Qed.

Lemma validate_transition_future_and_past_witness :
  fst (validate_transition chain_map "a" "c" empty_caches)
  = inl (FutureTransitionError "from a to c should happen in the future")
  /\ fst (validate_transition chain_map "c" "a" empty_caches)
     = inl (PastTransitionError "from c to a should have happened in the past").
Proof.
  apply (validate_transition_future_and_past 1 chain_spec chain_map "a" "b" "c").
  - reflexivity.
  - apply caches_valid_empty.
  - apply caches_valid_empty.
  - apply chain_acyclic.
  - reflexivity.
  - reflexivity.
  - reflexivity.
Defined.

(** C3. For two distinct nodes without a direct edge [from_status ->
    to_status]: when [to_status] is reachable from [from_status] and
    [from_status] from [to_status], [validate_transition] raises
    [AmbiguousTransitionError]; and whenever it raises that error the two
    nodes lie on a common directed cycle, so the graph is not acyclic. *)
Theorem validate_transition_ambiguous i transitions self from_status to_status c :
  __init__ i transitions = inr self ->
  caches_valid (_graph self) c ->
  nx.has_node (_graph self) from_status = true ->
  nx.has_node (_graph self) to_status = true ->
  from_status <> to_status ->
  nx.has_successor (_graph self) from_status to_status = false ->
  (reachable (_graph self) to_status from_status ->
   reachable (_graph self) from_status to_status ->
   fst (validate_transition self from_status to_status c)
   = inl (AmbiguousTransitionError
            ("from " ++ from_status ++ " to " ++ to_status
             ++ " is both past and future")))
  /\ (forall msg,
        fst (validate_transition self from_status to_status c)
        = inl (AmbiguousTransitionError msg) ->
        on_common_cycle (_graph self) from_status to_status
        /\ ~ acyclic (_graph self)).
Proof.
  intros Hinit Hv Ha Hb Hne He.
  destruct (classify_spec _ _ _ _ _ c Hinit Hv Ha Hb Hne He)
    as (ia & id & -> & Hia & Hid).
  split.
  - intros Hanc Hdesc. apply Hia in Hanc. apply Hid in Hdesc. now subst.
  - intros msg H. inversion H as [H']. apply raised_ambiguous in H'.
    destruct H' as [E1 E2]. apply Hia in E1. apply Hid in E2.
    split; [split; assumption|].
    intros Hacyc. apply (Hacyc from_status). eapply t_trans; eauto.
Qed.

Lemma validate_transition_ambiguous_witness :
  fst (validate_transition cycle_map "p" "r" empty_caches)
  = inl (AmbiguousTransitionError "from p to r is both past and future")
  /\ on_common_cycle (_graph cycle_map) "p" "r"
  /\ ~ acyclic (_graph cycle_map).
Proof.
  destruct (validate_transition_ambiguous 2 cycle_spec cycle_map "p" "r" empty_caches)
    as [Hraise Hcycle].
  - reflexivity.
  - apply caches_valid_empty.
  - reflexivity.
  - reflexivity.
  - discriminate.
  - reflexivity.
  - split.
    + apply Hraise.
      * apply t_step. reflexivity.
      * apply t_trans with "q"; apply t_step; reflexivity.
    + apply (Hcycle "from p to r is both past and future"). reflexivity.
Defined.

(** C4. For two distinct nodes with no direct edge and no directed path in
    either direction, [validate_transition] raises
    [TransitionNotFoundError]. *)
Theorem validate_transition_unrelated i transitions self x y c :
  __init__ i transitions = inr self ->
  caches_valid (_graph self) c ->
  nx.has_node (_graph self) x = true ->
  nx.has_node (_graph self) y = true ->
  x <> y ->
  nx.has_successor (_graph self) x y = false ->
  ~ reachable (_graph self) x y ->
  ~ reachable (_graph self) y x ->
  fst (validate_transition self x y c)
  = inl (TransitionNotFoundError ("from " ++ x ++ " to " ++ y ++ " not found")).
Proof.
  intros Hinit Hv Hx Hy Hne He Hxy Hyx.
  destruct (classify_spec _ _ _ _ _ c Hinit Hv Hx Hy Hne He)
    as (ia & id & -> & Hia & Hid).
  destruct ia; [exfalso; apply Hyx; now apply Hia|].
  destruct id; [exfalso; apply Hxy; now apply Hid|].
  reflexivity.
Qed.

Lemma validate_transition_unrelated_witness :
  fst (validate_transition chain_map "x" "y" empty_caches)
  = inl (TransitionNotFoundError "from x to y not found").
Proof.
  apply (validate_transition_unrelated 1 chain_spec chain_map "x" "y").
  - reflexivity.
  - apply caches_valid_empty.
  - reflexivity.
  - reflexivity.
  - discriminate.
  - reflexivity.
  - intros H. destruct (reachable_first_edge _ _ _ H) as [z Hz]. discriminate.
  - intros H. destruct (reachable_first_edge _ _ _ H) as [z Hz]. discriminate.
Defined.

(** ** Properties of construction *)

(** C8. After construction every top-level key of the specification is a
    node of the graph, whether or not it declares transitions, and every
    declared target, of a plain collection or of a metadata mapping, is the
    head of a directed edge from its key. *)
Theorem construction_keys_and_edges i transitions self :
  __init__ i transitions = inr self ->
  (forall k, top_level_key transitions k ->
             nx.has_node (_graph self) k = true)
  /\ (forall a b, declares transitions a b ->
                  nx.has_successor (_graph self) a b = true
                  /\ nx.has_predecessor (_graph self) b a = true).
Proof.
  intros Hinit.
  destruct (init_spec _ _ _ Hinit) as (Hwf & _ & Hkeys & Hedges).
  split; [exact Hkeys|].
  intros a b Hd. pose proof (Hedges a b Hd) as He.
  split; [exact He|]. now rewrite (wf_mirror _ Hwf).
Qed.

Lemma construction_keys_and_edges_witness :
  nx.has_node (_graph chain_map) "x" = true
  /\ nx.has_successor (_graph chain_map) "a" "b" = true
  /\ nx.has_successor (_graph chain_map) "b" "c" = true.
Proof.
  destruct (construction_keys_and_edges 1 chain_spec chain_map eq_refl)
    as [Hkeys Hedges].
  split; [|split].
  - apply Hkeys. exists ["a"; "b"; "x"; "y"]. split; [reflexivity | simpl; auto].
  - apply (Hedges "a" "b"). exists (PList [PStr "b"]).
    split; [reflexivity|]. exists [PStr "b"]. split; [reflexivity | simpl; auto].
  - apply (Hedges "b" "c").
    exists (PDict [("c", PDict [("validation", PList [PStr "h1"; PStr "h2"])])]).
    split; [reflexivity | simpl; auto].
Defined.

(** C10. A declared target [t] that is not a top-level key is a node of the
    map all the same: it is one of the [len] statuses, each counted once, it
    is in the iteration and in the [statuses] tuple, [t in map] holds, and
    [validate_transition] between [t] and any node of the map, in either
    direction, does not raise [StatusNotFoundError]. *)
Theorem declared_target_is_registered i transitions self a t :
  __init__ i transitions = inr self ->
  declares transitions a t ->
  ~ top_level_key transitions t ->
  In t (__iter__ self)
  /\ In t (statuses self)
  /\ __len__ self = List.length (statuses self)
  /\ NoDup (statuses self)
  /\ __contains__ self t = true
  /\ forall x c msg,
       nx.has_node (_graph self) x = true ->
       fst (validate_transition self t x c) <> inl (StatusNotFoundError msg)
       /\ fst (validate_transition self x t c) <> inl (StatusNotFoundError msg).
Proof.
  intros Hinit Hd _.
  destruct (init_spec _ _ _ Hinit) as (Hwf & _ & _ & Hedges).
  destruct (edge_nodes _ _ _ Hwf (Hedges a t Hd)) as [_ Ht].
  split; [now apply has_node_In|].
  split; [now apply has_node_In|].
  split; [apply number_of_nodes_length|].
  split; [apply (wf_nodup _ Hwf)|].
  split.
  - unfold __contains__, __getitem__.
    rewrite <- (wf_succ_keys _ Hwf) in Ht. unfold dict_mem in Ht.
    now destruct (dict_get (nx._succ (_graph self)) t).
  - intros x c msg Hx. split; now apply validate_transition_found.
Qed.

Lemma declared_target_is_registered_witness :
  In "c" (statuses chain_map)
  /\ __len__ chain_map = 5
  /\ __contains__ chain_map "c" = true
  /\ fst (validate_transition chain_map "c" "a" empty_caches)
     <> inl (StatusNotFoundError "from_status c not found").
Proof.
  destruct (declared_target_is_registered 1 chain_spec chain_map "b" "c")
    as (_ & Hin & Hlen & _ & Hmem & Hvt).
  - reflexivity.
  - exists (PDict [("c", PDict [("validation", PList [PStr "h1"; PStr "h2"])])]).
    split; [reflexivity | simpl; auto].
  - intros [keys [Hk Hin]]. inversion Hk; subst. simpl in Hin.
    repeat (destruct Hin as [Hin|Hin]; [discriminate|]). exact Hin.
  - split; [exact Hin | split; [exact Hlen | split; [exact Hmem|]]].
    apply (Hvt "a" empty_caches). reflexivity.
Defined.

(** ** The caches do not change an outcome *)

(** C9. On every map and every pair of arguments, the outcome of
    [validate_transition] is the same from any state of the cache tables
    whose entries for this graph were stored by earlier calls: it is the
    outcome from the empty tables, a repeated call gives it again, and the
    tables a call leaves are again such a state, for this map and after a
    call on any other map. *)
Theorem validate_transition_cache_insensitive self a b c :
  caches_valid (_graph self) c ->
  fst (validate_transition self a b c)
  = fst (validate_transition self a b empty_caches)
  /\ fst (validate_transition self a b (snd (validate_transition self a b c)))
     = fst (validate_transition self a b c)
  /\ caches_valid (_graph self) (snd (validate_transition self a b c))
  /\ forall other a' b',
       (nx.ident (_graph other) = nx.ident (_graph self) ->
        _graph other = _graph self) ->
       caches_valid (_graph self) (snd (validate_transition other a' b' c)).
Proof.
  assert (Hsame : forall c1 c2,
             caches_valid (_graph self) c1 -> caches_valid (_graph self) c2 ->
             fst (validate_transition self a b c1)
             = fst (validate_transition self a b c2)).
  { intros c1 c2 [Ha1 Hd1] [Ha2 Hd2].
    unfold validate_transition, get_ancestors, get_descendants.
    destruct (negb (nx.has_node (_graph self) a)); [reflexivity|].
    destruct (negb (nx.has_node (_graph self) b)); [reflexivity|].
    destruct (String.eqb a b || nx.has_successor (_graph self) a b);
      [reflexivity|].
    pose proof (lru_cache_result nx.ancestors (_graph self) _ a Ha1) as A1.
    pose proof (lru_cache_result nx.ancestors (_graph self) _ a Ha2) as A2.
    pose proof (lru_cache_result nx.descendants (_graph self) _ a Hd1) as D1.
    pose proof (lru_cache_result nx.descendants (_graph self) _ a Hd2) as D2.
    destruct (lru_cache nx.ancestors (ancestors_cache c1) (_graph self) a)
      as [ra1 ac1].
    destruct (lru_cache nx.ancestors (ancestors_cache c2) (_graph self) a)
      as [ra2 ac2].
    destruct (lru_cache nx.descendants (descendants_cache c1) (_graph self) a)
      as [rd1 dc1].
    destruct (lru_cache nx.descendants (descendants_cache c2) (_graph self) a)
      as [rd2 dc2].
    cbn [fst] in A1, A2, D1, D2. subst ra1 ra2 rd1 rd2.
    destruct (nx.ancestors (_graph self) a) as [e|anc]; [reflexivity|].
    destruct (nx.descendants (_graph self) a) as [e|desc]; [reflexivity|].
    destruct (set_mem b anc), (set_mem b desc); reflexivity. }
  intros Hv.
  assert (Hv' : caches_valid (_graph self) (snd (validate_transition self a b c))).
  { apply validate_transition_valid; auto. }
  split; [apply Hsame; auto using caches_valid_empty|].
  split; [apply Hsame; auto|].
  split; [exact Hv'|].
  intros other a' b' Hid. now apply validate_transition_valid.
Qed.

Lemma validate_transition_cache_insensitive_witness :
  fst (validate_transition chain_map "a" "c"
         (snd (validate_transition chain_map "c" "a" empty_caches)))
  = fst (validate_transition chain_map "a" "c" empty_caches).
Proof.
  destruct (validate_transition_cache_insensitive chain_map "a" "c"
              (snd (validate_transition chain_map "c" "a" empty_caches)))
    as (Hsame & _).
  - apply validate_transition_valid; [auto | apply caches_valid_empty].
  - exact Hsame.
Defined.

(** ** Failures of construction *)


Lemma add_node_has_node g n x :
  nx.has_node (nx.add_node g n) x = String.eqb n x || nx.has_node g x.
Proof.
  unfold nx.add_node, nx.has_node.
  destruct (dict_mem (nx._node g) n) eqn:E; simpl.
  - destruct (String.eqb_spec n x) as [<-|]; auto.
  - apply dict_mem_set.
Qed.

Lemma add_nodes_from_only ns : forall g x,
  nx.has_node (nx.add_nodes_from g ns) x = true ->
  nx.has_node g x = true \/ In x ns.
Proof.
  unfold nx.add_nodes_from.
  induction ns as [|n ns IH]; intros g x H; simpl in *; [auto|].
  destruct (IH _ _ H) as [H1|H1]; [|auto].
  rewrite add_node_has_node in H1. apply orb_true_iff in H1.
  destruct H1 as [H1|H1]; [|auto].
  apply String.eqb_eq in H1. auto.
Qed.






(** ** Validation hooks *)

(** C6 at two specifications.  For an edge declared with the hooks
    ["h1"; "h2"], [get_validations] returns the last hook alone, which is
    not the declared list; and on a map built from a specification without
    any validation it raises [AttributeError]. *)
Theorem get_validations_divergence :
  __init__ 1 chain_spec = inr chain_map
  /\ get_validations chain_map "b" "c" = inr (PStr "h2")
  /\ get_validations chain_map "b" "c" <> inr (PList [PStr "h1"; PStr "h2"])
  /\ __init__ 3 plain_spec = inr plain_map
  /\ get_validations plain_map "a" "b" = inl AttributeError.
Proof.
  split; [reflexivity|].
  split; [reflexivity|].
  split; [discriminate|].
  split; reflexivity.
Qed.


(** ** Further properties of the classifier *)

(** X1. [validate_transition] returns exactly when both statuses are nodes
    and they are equal or joined by a direct edge; this holds for every map
    and every state of the caches. *)
Theorem validate_transition_returns_iff self a b c :
  fst (validate_transition self a b c) = inr tt
  <-> nx.has_node (_graph self) a = true
      /\ nx.has_node (_graph self) b = true
      /\ (a = b \/ nx.has_successor (_graph self) a b = true).
Proof.
  unfold validate_transition, get_ancestors, get_descendants.
  destruct (nx.has_node (_graph self) a); cbn [negb];
    [|split; [discriminate | intros (H & _); discriminate]].
  destruct (nx.has_node (_graph self) b); cbn [negb];
    [|split; [discriminate | intros (_ & H & _); discriminate]].
  destruct (String.eqb_spec a b) as [->|Hne]; cbn [orb].
  - split; auto.
  - destruct (nx.has_successor (_graph self) a b).
    + split; auto.
    + split; [|intros (_ & _ & [H|H]); [contradiction | discriminate]].
      destruct (lru_cache nx.ancestors (ancestors_cache c) (_graph self) a)
        as [[e|anc] ac]; [discriminate|].
      destruct (lru_cache nx.descendants (descendants_cache c) (_graph self) a)
        as [[e|desc] dc]; [discriminate|].
      destruct (set_mem b anc), (set_mem b desc); discriminate.
Qed.

Lemma validate_transition_returns_iff_witness :
  fst (validate_transition chain_map "a" "b" empty_caches) = inr tt.
Proof.
  apply (validate_transition_returns_iff chain_map "a" "b" empty_caches).
  split; [reflexivity | split; [reflexivity | right; reflexivity]].
Defined.

Lemma cached_call_no_error (f : nx.DiGraph -> Status -> result (list Status)) c g s :
  (exists v, f g s = inr v) -> exists v, fst (lru_cache f c g s) = inr v.
Proof.
  intros [v Hv]. unfold lru_cache.
  destruct (lru_lookup (entries c) (nx.ident g, s)) as [w|].
  - exists w. reflexivity.
  - rewrite Hv. exists v. reflexivity.
Qed.

(** X2. On a constructed map, whatever the caches hold,
    [validate_transition] returns or raises one of its five exception
    classes: no exception of networkx or of Python escapes it. *)
Theorem validate_transition_typed_outcome i transitions self a b c :
  __init__ i transitions = inr self ->
  typed_outcome (fst (validate_transition self a b c)).
Proof.
  intros Hinit. destruct (init_spec _ _ _ Hinit) as (Hwf & _).
  unfold validate_transition, get_ancestors, get_descendants.
  destruct (nx.has_node (_graph self) a) eqn:Ha; cbn [negb]; [|exact I].
  destruct (nx.has_node (_graph self) b); cbn [negb]; [|exact I].
  destruct (String.eqb a b || nx.has_successor (_graph self) a b); [exact I|].
  destruct (ancestors_spec _ Hwf a Ha) as [anc0 [Hanc _]].
  destruct (descendants_spec _ Hwf a Ha) as [desc0 [Hdesc _]].
  destruct (cached_call_no_error nx.ancestors (ancestors_cache c) _ a
              (ex_intro _ anc0 Hanc)) as [anc Ra].
  destruct (cached_call_no_error nx.descendants (descendants_cache c) _ a
              (ex_intro _ desc0 Hdesc)) as [desc Rd].
  destruct (lru_cache nx.ancestors (ancestors_cache c) (_graph self) a) as [ra ac].
  destruct (lru_cache nx.descendants (descendants_cache c) (_graph self) a)
    as [rd dc].
  cbn [fst] in Ra, Rd. subst ra rd.
  destruct (set_mem b anc), (set_mem b desc); exact I.
Qed.

Lemma validate_transition_typed_outcome_witness :
  typed_outcome (fst (validate_transition cycle_map "p" "r" empty_caches)).
Proof.
  apply (validate_transition_typed_outcome 2 cycle_spec). reflexivity.
Defined.

(** The four ways a call ends on a constructed map with right caches. *)
Lemma validate_transition_cases i transitions self a b c :
  __init__ i transitions = inr self ->
  caches_valid (_graph self) c ->
  (exists msg, fst (validate_transition self a b c)
               = inl (StatusNotFoundError msg)
               /\ (nx.has_node (_graph self) a = false
                   \/ nx.has_node (_graph self) b = false))
  \/ (fst (validate_transition self a b c) = inr tt
      /\ nx.has_node (_graph self) a = true
      /\ nx.has_node (_graph self) b = true
      /\ (a = b \/ nx.has_successor (_graph self) a b = true))
  \/ (nx.has_node (_graph self) a = true
      /\ nx.has_node (_graph self) b = true
      /\ a <> b
      /\ nx.has_successor (_graph self) a b = false
      /\ exists is_ancestor is_descendant,
           fst (validate_transition self a b c)
           = inl (raised is_ancestor is_descendant a b)
           /\ (is_ancestor = true <-> reachable (_graph self) b a)
           /\ (is_descendant = true <-> reachable (_graph self) a b)).
Proof.
  intros Hinit Hv.
  destruct (nx.has_node (_graph self) a) eqn:Ha.
  - destruct (nx.has_node (_graph self) b) eqn:Hb.
    + destruct (String.eqb_spec a b) as [Heq|Hne].
      * right; left. split; [|auto].
        unfold validate_transition. rewrite Ha, Hb, Heq, String.eqb_refl.
        reflexivity.
      * destruct (nx.has_successor (_graph self) a b) eqn:He.
        -- right; left. split; [|auto].
           unfold validate_transition. rewrite Ha, Hb, He, orb_true_r.
           reflexivity.
        -- right; right.
           split; [reflexivity | split; [reflexivity | split; [exact Hne|]]].
           split; [reflexivity|].
           now apply (classify_spec i transitions).
    + left. eexists. split; [|right; reflexivity].
      unfold validate_transition. rewrite Ha, Hb. reflexivity.
  - left. eexists. split; [|left; reflexivity].
    unfold validate_transition. rewrite Ha. reflexivity.
Qed.

Lemma raised_future ia id a b msg :
  raised ia id a b = FutureTransitionError msg -> ia = false /\ id = true.
Proof. unfold raised. destruct ia, id; simpl; intros H; now inversion H. Qed.

Lemma raised_past ia id a b msg :
  raised ia id a b = PastTransitionError msg -> ia = true /\ id = false.
Proof. unfold raised. destruct ia, id; simpl; intros H; now inversion H. Qed.

Lemma raised_not_found ia id a b msg :
  raised ia id a b = TransitionNotFoundError msg -> ia = false /\ id = false.
Proof. unfold raised. destruct ia, id; simpl; intros H; now inversion H. Qed.

Lemma reachable_nodes g a b :
  wf_graph g -> reachable g a b ->
  nx.has_node g a = true /\ nx.has_node g b = true.
Proof.
  intros Hwf H. induction H as [x y He|x y z _ [Hx _] _ [_ Hz]]; [|auto].
  now apply edge_nodes.
Qed.

Lemma bool_not_true (x : bool) (P : Prop) : (x = true <-> P) -> x = false -> ~ P.
Proof. intros H -> HP. apply H in HP. discriminate. Qed.

Lemma bool_of_not (x : bool) (P : Prop) : (x = true <-> P) -> ~ P -> x = false.
Proof. intros H HP. destruct x; auto. exfalso. apply HP, H. reflexivity. Qed.

(** X3. On a constructed map with right caches, [validate_transition]
    raises [FutureTransitionError] exactly when there is no direct edge,
    [to_status] is reachable from [from_status], and [from_status] is not
    reachable from [to_status]. *)
Theorem validate_transition_future_iff i transitions self a b c :
  __init__ i transitions = inr self ->
  caches_valid (_graph self) c ->
  (exists msg, fst (validate_transition self a b c)
               = inl (FutureTransitionError msg))
  <-> nx.has_successor (_graph self) a b = false
      /\ reachable (_graph self) a b
      /\ ~ reachable (_graph self) b a.
Proof.
  intros Hinit Hv. destruct (init_spec _ _ _ Hinit) as (Hwf & _).
  destruct (validate_transition_cases _ _ _ a b c Hinit Hv)
    as [(m & E & Habs)|[(E & Ha & Hb & Hs)|(Ha & Hb & Hne & He & ia & id & E & Hia & Hid)]].
  - split.
    + intros [msg H]. congruence.
    + intros (_ & Hr & _). destruct (reachable_nodes _ _ _ Hwf Hr).
      destruct Habs; congruence.
  - split.
    + intros [msg H]. congruence.
    + intros (He & Hr & Hn). destruct Hs as [->|Hs]; [contradiction | congruence].
  - split.
    + intros [msg H]. rewrite E in H. inversion H as [H'].
      apply raised_future in H'. destruct H' as [-> ->].
      split; [assumption | split; [now apply Hid|]].
      now apply (bool_not_true false _ Hia).
    + intros (_ & Hr & Hn). apply Hid in Hr. apply (bool_of_not _ _ Hia) in Hn.
      subst. eexists. rewrite E. reflexivity.
Qed.

Lemma validate_transition_future_iff_witness :
  (exists msg, fst (validate_transition chain_map "a" "c" empty_caches)
               = inl (FutureTransitionError msg))
  <-> nx.has_successor (_graph chain_map) "a" "c" = false
      /\ reachable (_graph chain_map) "a" "c"
      /\ ~ reachable (_graph chain_map) "c" "a".
Proof.
  apply (validate_transition_future_iff 1 chain_spec chain_map "a" "c").
  - reflexivity.
  - apply caches_valid_empty.
Defined.

(** X4. On a constructed map with right caches, [validate_transition]
    raises [PastTransitionError] exactly when [from_status] is reachable
    from [to_status] and [to_status] is not reachable from [from_status]. *)
Theorem validate_transition_past_iff i transitions self a b c :
  __init__ i transitions = inr self ->
  caches_valid (_graph self) c ->
  (exists msg, fst (validate_transition self a b c)
               = inl (PastTransitionError msg))
  <-> reachable (_graph self) b a /\ ~ reachable (_graph self) a b.
Proof.
  intros Hinit Hv. destruct (init_spec _ _ _ Hinit) as (Hwf & _).
  destruct (validate_transition_cases _ _ _ a b c Hinit Hv)
    as [(m & E & Habs)|[(E & Ha & Hb & Hs)|(Ha & Hb & Hne & He & ia & id & E & Hia & Hid)]].
  - split.
    + intros [msg H]. congruence.
    + intros (Hr & _). destruct (reachable_nodes _ _ _ Hwf Hr).
      destruct Habs; congruence.
  - split.
    + intros [msg H]. congruence.
    + intros (Hr & Hn). exfalso. destruct Hs as [->|Hs]; [contradiction|].
      apply Hn. now apply t_step.
  - split.
    + intros [msg H]. rewrite E in H. inversion H as [H'].
      apply raised_past in H'. destruct H' as [-> ->].
      split; [now apply Hia|]. now apply (bool_not_true false _ Hid).
    + intros (Hr & Hn). apply Hia in Hr. apply (bool_of_not _ _ Hid) in Hn.
      subst. eexists. rewrite E. reflexivity.
Qed.

Lemma validate_transition_past_iff_witness :
  (exists msg, fst (validate_transition chain_map "c" "a" empty_caches)
               = inl (PastTransitionError msg))
  <-> reachable (_graph chain_map) "a" "c" /\ ~ reachable (_graph chain_map) "c" "a".
Proof.
  apply (validate_transition_past_iff 1 chain_spec chain_map "c" "a").
  - reflexivity.
  - apply caches_valid_empty.
Defined.

(** X5. On a constructed map with right caches, [validate_transition]
    raises [TransitionNotFoundError] exactly when the two statuses are
    distinct nodes and neither is reachable from the other. *)
Theorem validate_transition_not_found_iff i transitions self a b c :
  __init__ i transitions = inr self ->
  caches_valid (_graph self) c ->
  (exists msg, fst (validate_transition self a b c)
               = inl (TransitionNotFoundError msg))
  <-> nx.has_node (_graph self) a = true
      /\ nx.has_node (_graph self) b = true
      /\ a <> b
      /\ ~ reachable (_graph self) a b
      /\ ~ reachable (_graph self) b a.
Proof.
  intros Hinit Hv.
  destruct (validate_transition_cases _ _ _ a b c Hinit Hv)
    as [(m & E & Habs)|[(E & Ha & Hb & Hs)|(Ha & Hb & Hne & He & ia & id & E & Hia & Hid)]].
  - split.
    + intros [msg H]. congruence.
    + intros (Ha & Hb & _). destruct Habs; congruence.
  - split.
    + intros [msg H]. congruence.
    + intros (_ & _ & Hne & Hn & _). exfalso.
      destruct Hs as [->|Hs]; [now apply Hne|]. apply Hn. now apply t_step.
  - split.
    + intros [msg H]. rewrite E in H. inversion H as [H'].
      apply raised_not_found in H'. destruct H' as [-> ->].
      repeat (split; [assumption|]).
      split; [now apply (bool_not_true false _ Hid)
             | now apply (bool_not_true false _ Hia)].
    + intros (_ & _ & _ & Hn1 & Hn2).
      apply (bool_of_not _ _ Hid) in Hn1. apply (bool_of_not _ _ Hia) in Hn2.
      subst. eexists. rewrite E. reflexivity.
Qed.

Lemma validate_transition_not_found_iff_witness :
  (exists msg, fst (validate_transition chain_map "x" "y" empty_caches)
               = inl (TransitionNotFoundError msg))
  <-> nx.has_node (_graph chain_map) "x" = true
      /\ nx.has_node (_graph chain_map) "y" = true
      /\ "x" <> "y"
      /\ ~ reachable (_graph chain_map) "x" "y"
      /\ ~ reachable (_graph chain_map) "y" "x".
Proof.
  apply (validate_transition_not_found_iff 1 chain_spec chain_map "x" "y").
  - reflexivity.
  - apply caches_valid_empty.
Defined.

(** X6. Asking for the reverse transition: when [validate_transition(a, b)]
    raises [FutureTransitionError], [validate_transition(b, a)] raises
    [PastTransitionError]; and [validate_transition(a, b)] raises
    [TransitionNotFoundError] exactly when [validate_transition(b, a)]
    does. *)
Theorem validate_transition_reverse i transitions self a b c c' :
  __init__ i transitions = inr self ->
  caches_valid (_graph self) c ->
  caches_valid (_graph self) c' ->
  ((exists msg, fst (validate_transition self a b c)
                = inl (FutureTransitionError msg)) ->
   fst (validate_transition self b a c')
   = inl (PastTransitionError
            ("from " ++ b ++ " to " ++ a ++ " should have happened in the past")))
  /\ ((exists msg, fst (validate_transition self a b c)
                   = inl (TransitionNotFoundError msg))
      <-> (exists msg, fst (validate_transition self b a c')
                       = inl (TransitionNotFoundError msg))).
Proof.
  intros Hinit Hv Hv'.
  assert (Hnf : forall x y cx cy,
             caches_valid (_graph self) cx -> caches_valid (_graph self) cy ->
             (exists msg, fst (validate_transition self x y cx)
                          = inl (TransitionNotFoundError msg)) ->
             exists msg, fst (validate_transition self y x cy)
                         = inl (TransitionNotFoundError msg)).
  { intros x y cx cy Hx Hy [msg H].
    destruct (validate_transition_cases _ _ _ x y cx Hinit Hx)
      as [(m & E & _)|[(E & _)|(Ha & Hb & Hne & He & ia & id & E & Hia & Hid)]];
      try congruence.
    rewrite E in H. inversion H as [H']. apply raised_not_found in H'.
    destruct H' as [-> ->].
    destruct (validate_transition_cases _ _ _ y x cy Hinit Hy)
      as [(m & _ & [Habs|Habs])|[(_ & _ & _ & Hs)|(_ & _ & _ & _ & ia & id & E' & Hia' & Hid')]];
      try congruence.
    - exfalso. destruct Hs as [->|Hs]; [now apply Hne|].
      apply (bool_not_true false _ Hia); [reflexivity | now apply t_step].
    - assert (ia = false)
        by (apply (bool_of_not _ _ Hia'), (bool_not_true false _ Hid); reflexivity).
      assert (id = false)
        by (apply (bool_of_not _ _ Hid'), (bool_not_true false _ Hia); reflexivity).
      subst. eexists. rewrite E'. reflexivity. }
  split; [|split; apply Hnf; assumption].
  intros [msg H].
  destruct (validate_transition_cases _ _ _ a b c Hinit Hv)
    as [(m & E & _)|[(E & _)|(Ha & Hb & Hne & He & ia & id & E & Hia & Hid)]];
    try congruence.
  rewrite E in H. inversion H as [H']. apply raised_future in H'.
  destruct H' as [-> ->].
  assert (Hab : reachable (_graph self) a b) by now apply Hid.
  assert (Hba : ~ reachable (_graph self) b a)
    by now apply (bool_not_true false _ Hia).
  destruct (validate_transition_cases _ _ _ b a c' Hinit Hv')
    as [(m & _ & [Habs|Habs])|[(_ & _ & _ & Hs)|(_ & _ & _ & _ & ia & id & E' & Hia' & Hid')]];
    try congruence.
  - exfalso. destruct Hs as [->|Hs]; [now apply Hne|].
    apply Hba. now apply t_step.
  - apply Hia' in Hab. apply (bool_of_not _ _ Hid') in Hba. subst.
    rewrite E'. reflexivity.
Qed.

Lemma validate_transition_reverse_witness :
  fst (validate_transition chain_map "c" "a" empty_caches)
  = inl (PastTransitionError "from c to a should have happened in the past").
Proof.
  destruct (validate_transition_reverse 1 chain_spec chain_map "a" "c"
              empty_caches empty_caches) as [Hrev _].
  - reflexivity.
  - apply caches_valid_empty.
  - apply caches_valid_empty.
  - apply Hrev. eexists. reflexivity.
Defined.

(** X7. Two transitions that both validate compose to a forward move: when
    [validate_transition(a, b)] and [validate_transition(b, c)] return,
    [validate_transition(a, c)] returns or raises [FutureTransitionError]
    or [AmbiguousTransitionError], never another error. *)
Theorem validate_transition_compose i transitions self a b c cs1 cs2 cs3 :
  __init__ i transitions = inr self ->
  caches_valid (_graph self) cs1 ->
  caches_valid (_graph self) cs2 ->
  caches_valid (_graph self) cs3 ->
  fst (validate_transition self a b cs1) = inr tt ->
  fst (validate_transition self b c cs2) = inr tt ->
  fst (validate_transition self a c cs3) = inr tt
  \/ fst (validate_transition self a c cs3)
     = inl (FutureTransitionError
              ("from " ++ a ++ " to " ++ c ++ " should happen in the future"))
  \/ fst (validate_transition self a c cs3)
     = inl (AmbiguousTransitionError
              ("from " ++ a ++ " to " ++ c ++ " is both past and future")).
Proof.
  intros Hinit H1 H2 H3 Hab Hbc.
  destruct (validate_transition_cases _ _ _ a b cs1 Hinit H1)
    as [(m & E & _)|[(_ & Ha & _ & Sab)|(_ & _ & _ & _ & ia & id & E & _)]];
    try congruence.
  destruct (validate_transition_cases _ _ _ b c cs2 Hinit H2)
    as [(m & E & _)|[(_ & _ & Hc & Sbc)|(_ & _ & _ & _ & ia & id & E & _)]];
    try congruence.
  destruct (validate_transition_cases _ _ _ a c cs3 Hinit H3)
    as [(m & _ & [Habs|Habs])|[(E & _)|(_ & _ & Hne & He & ia & id & E & Hia & Hid)]];
    try congruence; [now left|].
  assert (Hreach : reachable (_graph self) a c).
  { destruct Sab as [->|Eab], Sbc as [->|Ebc]; try congruence.
    eapply t_trans; apply t_step; eassumption. }
  apply Hid in Hreach. subst id. rewrite E.
  destruct ia; [right; right | right; left]; reflexivity.
Qed.

Lemma validate_transition_compose_witness :
  fst (validate_transition chain_map "a" "c" empty_caches) = inr tt
  \/ fst (validate_transition chain_map "a" "c" empty_caches)
     = inl (FutureTransitionError "from a to c should happen in the future")
  \/ fst (validate_transition chain_map "a" "c" empty_caches)
     = inl (AmbiguousTransitionError "from a to c is both past and future").
Proof.
  apply (validate_transition_compose 1 chain_spec chain_map "a" "b" "c"
           empty_caches empty_caches empty_caches).
  - reflexivity.
  - apply caches_valid_empty.
  - apply caches_valid_empty.
  - apply caches_valid_empty.
  - reflexivity.
  - reflexivity.
Defined.

(** ** Further properties of the caches *)

Lemma lru_remove_length c k : List.length (lru_remove c k) <= List.length c.
Proof. unfold lru_remove. apply filter_length_le. Qed.

Lemma lru_remove_hit c k v :
  lru_lookup c k = Some v -> List.length (lru_remove c k) < List.length c.
Proof.
  induction c as [|[k' v'] c IH]; simpl; [discriminate|].
  destruct (key_eqb k' k) eqn:E; simpl.
  - intros _. pose proof (lru_remove_length c k). lia.
  - intros H. apply IH in H. lia.
Qed.

Lemma lru_remove_absent c k : lru_lookup c k = None -> lru_remove c k = c.
Proof.
  induction c as [|[k' v'] c IH]; simpl; [reflexivity|].
  destruct (key_eqb k' k) eqn:E; simpl; [discriminate|].
  intros H. now rewrite (IH H).
Qed.

Lemma lru_remove_lookup c k : lru_lookup (lru_remove c k) k = None.
Proof.
  induction c as [|[k' v'] c IH]; simpl; [reflexivity|].
  destruct (key_eqb k' k) eqn:E; simpl; [assumption|]. now rewrite E.
Qed.

Lemma lru_lookup_firstn n c k :
  lru_lookup c k = None -> lru_lookup (firstn n c) k = None.
Proof.
  revert c. induction n as [|n IH]; intros [|[k' v'] c]; simpl; auto.
  destruct (key_eqb k' k); [discriminate | auto].
Qed.

Lemma key_eqb_refl k : key_eqb k k = true.
Proof. now apply key_eqb_eq. Qed.

Section LruCalls.
Variable f : nx.DiGraph -> Status -> result (list Status).

Lemma lru_cache_bounded c g s :
  List.length (entries c) <= maxsize ->
  List.length (entries (snd (lru_cache f c g s))) <= maxsize.
Proof.
  intros Hb. unfold lru_cache.
  destruct (lru_lookup (entries c) (nx.ident g, s)) as [v|] eqn:E;
    cbn [snd entries].
  - apply lru_remove_hit in E. cbn [List.length]. lia.
  - destruct (f g s) as [e|v]; cbn [snd entries]; [assumption|].
    apply firstn_le_length.
Qed.

Lemma lru_cache_front c g s v rest :
  entries c = ((nx.ident g, s), v) :: rest ->
  lru_lookup rest (nx.ident g, s) = None ->
  lru_cache f c g s = (inr v, mkLru (S (hits c)) (misses c) (entries c)).
Proof.
  intros He Hrest. unfold lru_cache. rewrite He.
  cbn [lru_lookup]. rewrite key_eqb_refl.
  unfold lru_remove. cbn [filter fst]. rewrite key_eqb_refl. cbn [negb].
  change (filter (fun e => negb (key_eqb (fst e) (nx.ident g, s))) rest)
    with (lru_remove rest (nx.ident g, s)).
  now rewrite (lru_remove_absent rest _ Hrest).
Qed.

Lemma lru_cache_entries c g s v :
  fst (lru_cache f c g s) = inr v ->
  exists rest,
    entries (snd (lru_cache f c g s)) = ((nx.ident g, s), v) :: rest
    /\ lru_lookup rest (nx.ident g, s) = None.
Proof.
  unfold lru_cache.
  destruct (lru_lookup (entries c) (nx.ident g, s)) as [w|] eqn:E.
  - cbn [fst snd entries]. intros H. inversion H; subst w.
    eexists. split; [reflexivity | apply lru_remove_lookup].
  - destruct (f g s) as [e|w]; cbn [fst snd entries]; [discriminate|].
    intros H. inversion H; subst w.
    exists (firstn 511 (entries c)).
    split; [reflexivity | now apply lru_lookup_firstn].
Qed.

(** The same call again is a hit: it returns the stored value, counts one
    hit and leaves the misses and the entries as they are. *)
Lemma lru_cache_again c g s v :
  fst (lru_cache f c g s) = inr v ->
  lru_cache f (snd (lru_cache f c g s)) g s
  = (inr v, mkLru (S (hits (snd (lru_cache f c g s))))
                  (misses (snd (lru_cache f c g s)))
                  (entries (snd (lru_cache f c g s)))).
Proof.
  intros H. destruct (lru_cache_entries c g s v H) as [rest [He Hrest]].
  now apply (lru_cache_front _ g s v rest).
Qed.
End LruCalls.

(** X8. Neither cache table ever grows beyond 512 entries: a call of
    [validate_transition] on tables within the bound leaves tables within
    the bound. *)
Theorem validate_transition_caches_bounded self a b c :
  caches_bounded c -> caches_bounded (snd (validate_transition self a b c)).
Proof.
  intros [Ha Hd].
  destruct (validate_transition_caches self a b c) as [[Ea|Ea] [Ed|Ed]];
    split; rewrite ?Ea, ?Ed; auto using lru_cache_bounded.
Qed.

Lemma validate_transition_caches_bounded_witness :
  caches_bounded (snd (validate_transition chain_map "a" "c" empty_caches)).
Proof.
  apply (validate_transition_caches_bounded chain_map "a" "c" empty_caches).
  split; apply Nat.leb_le; reflexivity.
Defined.

Lemma validate_transition_untouched self a b c :
  negb (nx.has_node (_graph self) a)
  || negb (nx.has_node (_graph self) b)
  || (String.eqb a b || nx.has_successor (_graph self) a b) = true ->
  snd (validate_transition self a b c) = c.
Proof.
  unfold validate_transition.
  destruct (negb (nx.has_node (_graph self) a)); [reflexivity|].
  destruct (negb (nx.has_node (_graph self) b)); [reflexivity|].
  destruct (String.eqb a b || nx.has_successor (_graph self) a b);
    [reflexivity | discriminate].
Qed.

Lemma validate_transition_looked_up i transitions self a b c :
  __init__ i transitions = inr self ->
  negb (nx.has_node (_graph self) a)
  || negb (nx.has_node (_graph self) b)
  || (String.eqb a b || nx.has_successor (_graph self) a b) = false ->
  snd (validate_transition self a b c)
  = mkCaches
      (snd (lru_cache nx.ancestors (ancestors_cache c) (_graph self) a))
      (snd (lru_cache nx.descendants (descendants_cache c) (_graph self) a))
  /\ (exists anc, fst (lru_cache nx.ancestors (ancestors_cache c) (_graph self) a)
                  = inr anc)
  /\ (exists desc, fst (lru_cache nx.descendants (descendants_cache c)
                          (_graph self) a) = inr desc).
Proof.
  intros Hinit Hreach. destruct (init_spec _ _ _ Hinit) as (Hwf & _).
  apply orb_false_iff in Hreach. destruct Hreach as [Hn Hs].
  apply orb_false_iff in Hn. destruct Hn as [Ha Hb].
  unfold validate_transition, get_ancestors, get_descendants.
  rewrite Ha, Hb, Hs. apply negb_false_iff in Ha.
  destruct (ancestors_spec _ Hwf a Ha) as [anc0 [Hanc _]].
  destruct (descendants_spec _ Hwf a Ha) as [desc0 [Hdesc _]].
  destruct (cached_call_no_error nx.ancestors (ancestors_cache c) _ a
              (ex_intro _ anc0 Hanc)) as [anc Ra].
  destruct (cached_call_no_error nx.descendants (descendants_cache c) _ a
              (ex_intro _ desc0 Hdesc)) as [desc Rd].
  destruct (lru_cache nx.ancestors (ancestors_cache c) (_graph self) a) as [ra ac].
  destruct (lru_cache nx.descendants (descendants_cache c) (_graph self) a)
    as [rd dc].
  cbn [fst snd] in *. subst ra rd.
  split; [|split; eauto].
  destruct (set_mem b anc), (set_mem b desc); reflexivity.
Qed.

(** X9. On a constructed map, the same [validate_transition] call made
    again is served from the caches: the second call adds no miss to either
    table and leaves their entries as the first call left them, so neither
    reachability set is computed twice. *)
Theorem validate_transition_again_cached i transitions self a b c :
  __init__ i transitions = inr self ->
  let c1 := snd (validate_transition self a b c) in
  let c2 := snd (validate_transition self a b c1) in
  misses (ancestors_cache c2) = misses (ancestors_cache c1)
  /\ misses (descendants_cache c2) = misses (descendants_cache c1)
  /\ entries (ancestors_cache c2) = entries (ancestors_cache c1)
  /\ entries (descendants_cache c2) = entries (descendants_cache c1).
Proof.
  intros Hinit c1 c2. subst c1 c2.
  destruct (negb (nx.has_node (_graph self) a)
            || negb (nx.has_node (_graph self) b)
            || (String.eqb a b || nx.has_successor (_graph self) a b)) eqn:Hr.
  - rewrite !(validate_transition_untouched self a b) by exact Hr. auto.
  - destruct (validate_transition_looked_up i transitions self a b c Hinit Hr)
      as (E1 & [anc Ra] & [desc Rd]).
    destruct (validate_transition_looked_up i transitions self a b
                (snd (validate_transition self a b c)) Hinit Hr) as (E2 & _).
    rewrite E2, E1. cbn [ancestors_cache descendants_cache].
    rewrite (lru_cache_again nx.ancestors _ _ _ _ Ra).
    rewrite (lru_cache_again nx.descendants _ _ _ _ Rd).
    cbn [snd misses entries]. auto.
Qed.

Lemma validate_transition_again_cached_witness :
  let c1 := snd (validate_transition chain_map "a" "c" empty_caches) in
  let c2 := snd (validate_transition chain_map "a" "c" c1) in
  misses (ancestors_cache c2) = misses (ancestors_cache c1)
  /\ misses (descendants_cache c2) = misses (descendants_cache c1)
  /\ entries (ancestors_cache c2) = entries (ancestors_cache c1)
  /\ entries (descendants_cache c2) = entries (descendants_cache c1).
Proof.
  apply (validate_transition_again_cached 1 chain_spec chain_map "a" "c").
  reflexivity.
Defined.

(** ** Further properties of construction *)

Lemma add_edges_from_only es : forall g g',
  wf_graph g -> nx.add_edges_from g es = inr g' ->
  (forall a b, nx.has_successor g' a b = true ->
               nx.has_successor g a b = true \/ exists dd, In (a, PStr b, dd) es)
  /\ (forall x, nx.has_node g' x = true ->
                nx.has_node g x = true
                \/ exists u v dd, In (u, v, dd) es /\ (x = u \/ v = PStr x)).
Proof.
  unfold nx.add_edges_from.
  induction es as [|[[u v] dd] es IH]; intros g g' Hwf Hrun;
    cbn [for_each] in Hrun.
  - inversion Hrun; subst. auto.
  - unfold bind in Hrun.
    destruct (nx.add_edge_item g (u, v, dd)) as [e|g1] eqn:Hitem; [discriminate|].
    simpl in Hitem. destruct v as [|v'| |]; try discriminate.
    assert (Hg1 : exists d, g1 = nx.add_edge g u v' d).
    { destruct dd as [[| | |d]|]; try discriminate; inversion Hitem; eauto. }
    destruct Hg1 as [d ->].
    destruct (IH _ _ (add_edge_wf g Hwf u v' d) Hrun) as [HE HN]. split.
    + intros a b H. destruct (HE a b H) as [H1|[dd' H1]].
      * rewrite add_edge_has_successor in H1.
        apply orb_true_iff in H1. destruct H1 as [H1|H1]; [|auto].
        apply andb_true_iff in H1. destruct H1 as [H1 H2].
        apply String.eqb_eq in H1, H2. subst. right. exists dd. now left.
      * right. exists dd'. now right.
    + intros x H. destruct (HN x H) as [H1|(u0 & v0 & dd0 & Hin & Hx)].
      * rewrite (add_edge_has_node g Hwf) in H1.
        apply orb_true_iff in H1. destruct H1 as [H1|H1]; [|auto].
        apply orb_true_iff in H1. right. exists u, (PStr v'), dd.
        split; [now left|].
        destruct H1 as [H1|H1]; apply String.eqb_eq in H1; subst; auto.
      * right. exists u0, v0, dd0. split; [now right | assumption].
Qed.

Lemma init_body_only t node graph validations graph' validations' :
  wf_graph graph ->
  (let* edges := py_getitem t node in
   match edges with
   | PDict items =>
       let edges_to_add :=
         map (fun ea => (node, PStr (fst ea), Some (snd ea))) items in
       let* vals := _add_transition_validations validations node items in
       let* g := nx.add_edges_from graph edges_to_add in
       inr (g, vals)
   | _ =>
       let* targets := py_iter edges in
       let edges_to_add := map (fun edge => (node, edge, @None PyVal)) targets in
       let* g := nx.add_edges_from graph edges_to_add in
       inr (g, validations)
   end) = inr (graph', validations') ->
  (forall a b, nx.has_successor graph' a b = true ->
               nx.has_successor graph a b = true
               \/ (a = node /\ declares t node b))
  /\ (forall x, nx.has_node graph' x = true ->
                nx.has_node graph x = true \/ x = node \/ declares t node x).
Proof.
  intros Hwf Hb. unfold bind in Hb.
  destruct (py_getitem t node) as [e|edges] eqn:Hget; [discriminate|].
  assert (Hplain :
    forall targets g,
      py_iter edges = inr targets ->
      (match edges with PDict _ => False | _ => True end) ->
      nx.add_edges_from graph (map (fun edge => (node, edge, @None PyVal)) targets)
      = inr g ->
      (forall a b, nx.has_successor g a b = true ->
                   nx.has_successor graph a b = true
                   \/ (a = node /\ declares t node b))
      /\ (forall x, nx.has_node g x = true ->
                    nx.has_node graph x = true \/ x = node \/ declares t node x)).
  { intros targets g Hit Hnd Hadd.
    assert (Hdecl : forall b, In (PStr b) targets -> declares t node b).
    { intros b Hin. exists edges. split; [assumption|].
      destruct edges; try contradiction; eauto. }
    destruct (add_edges_from_only _ _ _ Hwf Hadd) as [HE HN]. split.
    - intros a b H. destruct (HE a b H) as [H1|[dd H1]]; [auto|].
      apply in_map_iff in H1. destruct H1 as [edge [Heq Hin]].
      inversion Heq; subst. auto.
    - intros x H. destruct (HN x H) as [H1|(u & v & dd & Hin & Hx)]; [auto|].
      apply in_map_iff in Hin. destruct Hin as [edge [Heq Hin]].
      inversion Heq; subst. destruct Hx as [-> | ->]; auto. }
  destruct edges as [|s|xs|items].
  - destruct (py_iter PNone) as [e|targets] eqn:Hit; [discriminate|].
    destruct (nx.add_edges_from graph _) as [e|g] eqn:Hadd; [discriminate|].
    inversion Hb; subst. eapply Hplain; eauto; exact I.
  - destruct (py_iter (PStr s)) as [e|targets] eqn:Hit; [discriminate|].
    destruct (nx.add_edges_from graph _) as [e|g] eqn:Hadd; [discriminate|].
    inversion Hb; subst. eapply Hplain; eauto; exact I.
  - destruct (py_iter (PList xs)) as [e|targets] eqn:Hit; [discriminate|].
    destruct (nx.add_edges_from graph _) as [e|g] eqn:Hadd; [discriminate|].
    inversion Hb; subst. eapply Hplain; eauto; exact I.
  - destruct (_add_transition_validations validations node items)
      as [e|vals] eqn:Hval; [discriminate|].
    simpl in Hb.
    destruct (nx.add_edges_from graph _) as [e|g] eqn:Hadd; [discriminate|].
    inversion Hb; subst.
    assert (Hdecl : forall b attr, In (b, attr) items -> declares t node b).
    { intros b attr Hin. exists (PDict items). split; [assumption|].
      unfold dict_keys. apply in_map_iff. exists (b, attr). auto. }
    destruct (add_edges_from_only _ _ _ Hwf Hadd) as [HE HN]. split.
    + intros a b H. destruct (HE a b H) as [H1|[dd H1]]; [auto|].
      apply in_map_iff in H1. destruct H1 as [[b' attr] [Heq Hin]].
      inversion Heq; subst. eauto.
    + intros x H. destruct (HN x H) as [H1|(u & v & dd & Hin & Hx)]; [auto|].
      apply in_map_iff in Hin. destruct Hin as [[b' attr] [Heq Hin]].
      inversion Heq; subst. destruct Hx as [->|Hx]; [auto|].
      inversion Hx; subst. eauto.
Qed.

Lemma init_only_declared i transitions self :
  __init__ i transitions = inr self ->
  (forall a b, nx.has_successor (_graph self) a b = true ->
               declares transitions a b)
  /\ (forall x, nx.has_node (_graph self) x = true ->
                top_level_key transitions x
                \/ exists a, declares transitions a x).
Proof.
  unfold __init__, bind. intros Hinit.
  destruct (py_keys transitions) as [e|keys] eqn:Hkeys; [discriminate|].
  destruct (add_nodes_from_spec keys (nx.empty i) (wf_empty i)) as (W0 & X0 & N0).
  set (graph0 := nx.add_nodes_from (nx.empty i) keys) in *.
  assert (Hkey : forall x, nx.has_node graph0 x = true ->
                           top_level_key transitions x).
  { intros x Hx. apply add_nodes_from_only in Hx.
    destruct Hx as [Hx|Hx]; [discriminate|]. exists keys. auto. }
  assert (E0 : forall a b, nx.has_successor graph0 a b = true -> False).
  { unfold graph0, nx.add_nodes_from. clear.
    assert (H : forall ns g,
               (forall a b, nx.has_successor g a b = false) ->
               forall a b, nx.has_successor (fold_left nx.add_node ns g) a b = false).
    { induction ns as [|n ns IH]; intros g Hg a b; simpl; [apply Hg|].
      apply IH. intros a' b'. unfold nx.add_node.
      destruct (dict_mem (nx._node g) n); [apply Hg|].
      unfold nx.has_successor; simpl. rewrite dict_get_set.
      destruct (String.eqb n a'); [reflexivity | apply Hg]. }
    intros a b Hab. rewrite H in Hab; [discriminate | reflexivity]. }
  match type of Hinit with
  | match for_each ?bd ?l0 ?s0 with _ => _ end = _ =>
      destruct (for_each bd l0 s0) as [e|final] eqn:Hloop; [discriminate|];
      destruct (for_each_inv bd
                  (fun s => wf_graph (fst s)
                            /\ (forall a b, nx.has_successor (fst s) a b = true ->
                                            declares transitions a b)
                            /\ (forall x, nx.has_node (fst s) x = true ->
                                          top_level_key transitions x
                                          \/ exists a, declares transitions a x))
                  (fun _ _ => True) (fun _ _ => True))
        with (xs := l0) (s := s0) (s' := final) as ((W & HE & HN) & _); auto
  end.
  - intros [graph validations] node [graph' validations'] Hnode (Hw & HE & HN) Hb.
    simpl in Hw, HE, HN. simpl.
    destruct (init_body_spec transitions node graph validations graph'
                validations' Hw Hb) as (W' & _ & _).
    destruct (init_body_only transitions node graph validations graph'
                validations' Hw Hb) as [HE' HN'].
    split; [|auto]. split; [assumption | split].
    + intros a b H. destruct (HE' a b H) as [H1|[-> H1]]; auto.
    + intros x H. destruct (HN' x H) as [H1|[->|H1]]; eauto.
      left. apply Hkey. now apply has_node_In.
  - simpl. split; [assumption | split].
    + intros a b H. destruct (E0 a b H).
    + intros x H. left. now apply Hkey.
  - inversion Hinit; subst; simpl. auto.
Qed.

(** X10. The graph of a constructed map is exactly what the specification
    declares: [a -> b] is an edge if and only if the specification declares
    [b] under [a], and [x] is a node if and only if it is a top-level key or
    a declared target. *)
Theorem construction_exact i transitions self :
  __init__ i transitions = inr self ->
  (forall a b, nx.has_successor (_graph self) a b = true
               <-> declares transitions a b)
  /\ (forall x, nx.has_node (_graph self) x = true
                <-> top_level_key transitions x
                    \/ exists a, declares transitions a x).
Proof.
  intros Hinit.
  destruct (init_spec _ _ _ Hinit) as (Hwf & _ & Hkeys & Hedges).
  destruct (init_only_declared _ _ _ Hinit) as [HE HN].
  split.
  - intros a b. split; [apply HE | apply Hedges].
  - intros x. split; [apply HN|].
    intros [Hk|[a Hd]]; [now apply Hkeys|].
    exact (proj2 (edge_nodes _ _ _ Hwf (Hedges a x Hd))).
Qed.

Lemma construction_exact_witness :
  declares chain_spec "b" "c"
  /\ nx.has_node (_graph chain_map) "y" = true.
Proof.
  destruct (construction_exact 1 chain_spec chain_map eq_refl) as [HE HN].
  split.
  - apply HE. reflexivity.
  - apply HN. left. exists ["a"; "b"; "x"; "y"].
    split; [reflexivity | simpl; auto].
Defined.

Lemma nodes_prefix_refl g : nodes_prefix g g.
Proof. exists []. now rewrite app_nil_r. Qed.

Lemma nodes_prefix_trans g1 g2 g3 :
  nodes_prefix g1 g2 -> nodes_prefix g2 g3 -> nodes_prefix g1 g3.
Proof.
  intros [e1 H1] [e2 H2]. exists (e1 ++ e2). now rewrite H2, H1, app_assoc.
Qed.

Lemma register_prefix g n : nodes_prefix g (nx.register g n).
Proof.
  unfold nx.register. destruct (dict_mem (nx._succ g) n).
  - apply nodes_prefix_refl.
  - unfold nodes_prefix, nx.nodes; simpl. rewrite dict_keys_set.
    destruct (dict_mem (nx._node g) n); [exists [] | exists [n]]; auto.
    now rewrite app_nil_r.
Qed.

Lemma add_edge_prefix g u v dd : nodes_prefix g (nx.add_edge g u v dd).
Proof.
  apply nodes_prefix_trans with (nx.register g u); [apply register_prefix|].
  apply nodes_prefix_trans with (nx.register (nx.register g u) v);
    [apply register_prefix|].
  unfold nx.add_edge, nodes_prefix, nx.nodes; simpl.
  exists []. now rewrite app_nil_r.
Qed.

Lemma add_edges_from_prefix es : forall g g',
  nx.add_edges_from g es = inr g' -> nodes_prefix g g'.
Proof.
  unfold nx.add_edges_from.
  induction es as [|[[u v] dd] es IH]; intros g g' Hrun; cbn [for_each] in Hrun.
  - inversion Hrun; subst. apply nodes_prefix_refl.
  - unfold bind in Hrun.
    destruct (nx.add_edge_item g (u, v, dd)) as [e|g1] eqn:Hitem; [discriminate|].
    simpl in Hitem. destruct v as [|v'| |]; try discriminate.
    assert (Hg1 : exists d, g1 = nx.add_edge g u v' d).
    { destruct dd as [[| | |d]|]; try discriminate; inversion Hitem; eauto. }
    destruct Hg1 as [d ->].
    apply nodes_prefix_trans with (nx.add_edge g u v' d);
      [apply add_edge_prefix | apply IH; exact Hrun].
Qed.

Lemma init_body_edges t node graph validations graph' validations' :
  (let* edges := py_getitem t node in
   match edges with
   | PDict items =>
       let edges_to_add :=
         map (fun ea => (node, PStr (fst ea), Some (snd ea))) items in
       let* vals := _add_transition_validations validations node items in
       let* g := nx.add_edges_from graph edges_to_add in
       inr (g, vals)
   | _ =>
       let* targets := py_iter edges in
       let edges_to_add := map (fun edge => (node, edge, @None PyVal)) targets in
       let* g := nx.add_edges_from graph edges_to_add in
       inr (g, validations)
   end) = inr (graph', validations') ->
  exists es, nx.add_edges_from graph es = inr graph'.
Proof.
  intros Hb. unfold bind in Hb.
  destruct (py_getitem t node) as [e|edges]; [discriminate|].
  destruct edges as [|s|xs|items].
  - discriminate.
  - cbn [py_iter] in Hb.
    destruct (nx.add_edges_from graph _) as [e|g] eqn:Hadd; [discriminate|].
    inversion Hb; subst. eauto.
  - cbn [py_iter] in Hb.
    destruct (nx.add_edges_from graph _) as [e|g] eqn:Hadd; [discriminate|].
    inversion Hb; subst. eauto.
  - destruct (_add_transition_validations validations node items)
      as [e|vals]; [discriminate|].
    cbv zeta in Hb.
    destruct (nx.add_edges_from graph _) as [e|g] eqn:Hadd; [discriminate|].
    inversion Hb; subst. eauto.
Qed.

Lemma add_nodes_from_fresh ns : forall g,
  NoDup ns -> (forall n, In n ns -> nx.has_node g n = false) ->
  nx.nodes (nx.add_nodes_from g ns) = nx.nodes g ++ ns.
Proof.
  unfold nx.add_nodes_from.
  induction ns as [|n ns IH]; intros g Hnd Hfresh; simpl.
  - now rewrite app_nil_r.
  - inversion Hnd as [|? ? Hn Hnd']; subst.
    rewrite IH; auto.
    + unfold nx.add_node. pose proof (Hfresh n (or_introl eq_refl)) as Hg.
      unfold nx.has_node in Hg. rewrite Hg. unfold nx.nodes; simpl.
      rewrite dict_keys_set, Hg, <- app_assoc. reflexivity.
    + intros n' Hn'. rewrite add_node_has_node.
      rewrite (Hfresh n' (or_intror Hn')), orb_false_r.
      apply String.eqb_neq. intros ->. contradiction.
Qed.

Lemma nodup_app_disjoint {A : Type} (l e : list A) x :
  NoDup (l ++ e) -> In x e -> ~ In x l.
Proof.
  induction l as [|y l IH]; simpl; intros Hn Hin; [tauto|].
  inversion Hn as [|? ? Hnotin Hrest]; subst.
  intros [->|Hl].
  - apply Hnotin. apply in_or_app. now right.
  - now apply IH.
Qed.

(** X11. Iteration order: the statuses of a constructed map start with the
    top-level keys of the specification in their order, followed by the
    auto-registered targets, none of which repeats a key. *)
Theorem statuses_start_with_keys i transitions self keys :
  __init__ i transitions = inr self ->
  py_keys transitions = inr keys ->
  NoDup keys ->
  exists extra,
    statuses self = keys ++ extra
    /\ __iter__ self = keys ++ extra
    /\ forall x, In x extra -> ~ In x keys.
Proof.
  intros Hinit Hkeys Hnd.
  destruct (init_spec _ _ _ Hinit) as (Hwf & _).
  assert (Hpre : exists extra, nx.nodes (_graph self) = keys ++ extra).
  { unfold __init__, bind in Hinit. rewrite Hkeys in Hinit.
    assert (H0 : nx.nodes (nx.add_nodes_from (nx.empty i) keys) = keys).
    { rewrite add_nodes_from_fresh; auto. }
    match type of Hinit with
    | match for_each ?bd ?l0 ?s0 with _ => _ end = _ =>
        destruct (for_each bd l0 s0) as [e|final] eqn:Hloop; [discriminate|];
        destruct (for_each_inv bd (fun _ => True)
                    (fun s s' => nodes_prefix (fst s) (fst s'))
                    (fun _ _ => True))
          with (xs := l0) (s := s0) (s' := final) as (_ & [extra Hx] & _); auto
    end.
    - intros s. apply nodes_prefix_refl.
    - intros s1 s2 s3. apply nodes_prefix_trans.
    - intros [graph validations] node [graph' validations'] _ _ Hb.
      split; [exact I | split; [|exact I]]. simpl.
      destruct (init_body_edges transitions node graph validations graph'
                  validations' Hb) as [es Hes].
      now apply (add_edges_from_prefix es).
    - inversion Hinit; subst; simpl in *. exists extra. now rewrite Hx, H0. }
  destruct Hpre as [extra Hx]. exists extra.
  unfold statuses, __iter__. split; [assumption | split; [assumption|]].
  intros x Hin. pose proof (wf_nodup _ Hwf) as Hn. rewrite Hx in Hn.
  now apply (nodup_app_disjoint keys extra).
Qed.

Lemma statuses_start_with_keys_witness :
  exists extra,
    statuses chain_map = ["a"; "b"; "x"; "y"] ++ extra
    /\ __iter__ chain_map = ["a"; "b"; "x"; "y"] ++ extra
    /\ forall x, In x extra -> ~ In x ["a"; "b"; "x"; "y"].
Proof.
  apply (statuses_start_with_keys 1 chain_spec chain_map).
  - reflexivity.
  - reflexivity.
  - repeat constructor; simpl; intuition discriminate.
Defined.

(** X12. The mapping protocol agrees with the classifier: on a constructed
    map [k in map] holds exactly for the statuses iteration yields, and
    exactly for the statuses whose self-transition validates. *)
Theorem contains_iff_known i transitions self k c :
  __init__ i transitions = inr self ->
  (__contains__ self k = true <-> In k (__iter__ self))
  /\ (__contains__ self k = true
      <-> fst (validate_transition self k k c) = inr tt)
  /\ (__contains__ self k = false
      <-> fst (validate_transition self k k c)
          = inl (StatusNotFoundError ("from_status " ++ k ++ " not found"))).
Proof.
  intros Hinit. destruct (init_spec _ _ _ Hinit) as (Hwf & _).
  assert (Hc : __contains__ self k = nx.has_node (_graph self) k).
  { rewrite <- (wf_succ_keys _ Hwf).
    unfold __contains__, __getitem__, dict_mem.
    now destruct (dict_get (nx._succ (_graph self)) k). }
  rewrite Hc. split; [apply has_node_In|].
  unfold validate_transition.
  destruct (nx.has_node (_graph self) k); cbn [negb].
  - rewrite String.eqb_refl. cbn.
    split; split; auto; discriminate.
  - cbn. split; split; auto; discriminate.
Qed.

Lemma contains_iff_known_witness :
  (__contains__ chain_map "c" = true <-> In "c" (__iter__ chain_map))
  /\ (__contains__ chain_map "c" = true
      <-> fst (validate_transition chain_map "c" "c" empty_caches) = inr tt)
  /\ (__contains__ chain_map "c" = false
      <-> fst (validate_transition chain_map "c" "c" empty_caches)
          = inl (StatusNotFoundError ("from_status " ++ "c" ++ " not found"))).
Proof.
  apply (contains_iff_known 1 chain_spec chain_map "c" empty_caches).
  reflexivity.
Defined.

(** X13. Direct-successor lookup on a constructed map: [map[a]] raises
    [KeyError] exactly when [a] is not one of the statuses, and otherwise the
    keys of the mapping it returns are exactly the targets the specification
    declares under [a]. *)
Theorem getitem_declared_targets i transitions self a :
  __init__ i transitions = inr self ->
  (__getitem__ self a = inl KeyError <-> ~ In a (statuses self))
  /\ (In a (statuses self) ->
      exists adj, __getitem__ self a = inr adj
                  /\ forall b, In b (dict_keys adj) <-> declares transitions a b).
Proof.
  intros Hinit.
  destruct (init_spec _ _ _ Hinit) as (Hwf & _ & _ & Hedges).
  destruct (init_only_declared _ _ _ Hinit) as [HE _].
  pose proof (wf_succ_keys _ Hwf a) as Hk.
  assert (Hsucc : forall b, nx.has_successor (_graph self) a b = true
                            <-> declares transitions a b).
  { intros b. split; [apply HE | apply Hedges]. }
  unfold statuses. rewrite <- has_node_In, <- Hk.
  unfold __getitem__, dict_mem. unfold nx.has_successor in Hsucc.
  destruct (dict_get (nx._succ (_graph self)) a) as [adj|]; split.
  - split; [discriminate | intros H; now elim H].
  - intros _. exists adj. split; [reflexivity|].
    intros b. rewrite <- Hsucc. symmetry. apply dict_mem_In.
  - split; [discriminate | reflexivity].
  - discriminate.
Qed.

Lemma getitem_declared_targets_witness :
  exists adj, __getitem__ chain_map "b" = inr adj
              /\ forall b, In b (dict_keys adj) <-> declares chain_spec "b" b.
Proof.
  destruct (getitem_declared_targets 1 chain_spec chain_map "b" eq_refl)
    as [_ H].
  apply H. simpl. auto.
Defined.

(** ** Which specifications construct *)

Lemma for_each_ok {A S : Type} (body : S -> A -> result S) xs :
  (forall s x, In x xs -> exists s', body s x = inr s') ->
  forall s, exists s', for_each body xs s = inr s'.
Proof.
  induction xs as [|x xs IH]; intros Hbody s; simpl; [eauto|].
  destruct (Hbody s x (or_introl eq_refl)) as [s1 H1].
  unfold bind. rewrite H1. apply IH. intros s0 y Hy. apply Hbody. now right.
Qed.

Lemma char_strings_str s v : In v (char_strings s) -> is_str v = true.
Proof.
  unfold char_strings. intros H. apply in_map_iff in H.
  destruct H as [c [<- _]]. reflexivity.
Qed.

Lemma add_edges_from_plain_ok g node targets :
  (forall v, In v targets -> is_str v = true) ->
  exists g', nx.add_edges_from g (map (fun edge => (node, edge, @None PyVal)) targets)
             = inr g'.
Proof.
  intros Hstr. apply for_each_ok. intros s [[u v] dd] Hin.
  apply in_map_iff in Hin. destruct Hin as [e [Heq Hin]]. inversion Heq; subst.
  specialize (Hstr v Hin). destruct v; try discriminate. simpl. eauto.
Qed.

Lemma add_edges_from_bags_ok g node items :
  forallb (fun ea => well_formed_bag (snd ea)) items = true ->
  exists g', nx.add_edges_from g
               (map (fun ea : string * PyVal => (node, PStr (fst ea), Some (snd ea)))
                    items) = inr g'.
Proof.
  intros Hwf. rewrite forallb_forall in Hwf.
  apply for_each_ok. intros s [[u v] dd] Hin.
  apply in_map_iff in Hin. destruct Hin as [[b attr] [Heq Hin]].
  inversion Heq; subst. specialize (Hwf _ Hin). simpl in Hwf.
  destruct attr; try discriminate. simpl. eauto.
Qed.

Lemma add_transition_validations_ok validations node items :
  forallb (fun ea => well_formed_bag (snd ea)) items = true ->
  exists vals, _add_transition_validations validations node items = inr vals.
Proof.
  intros Hwf. rewrite forallb_forall in Hwf.
  apply for_each_ok. intros s [b attr] Hin. specialize (Hwf _ Hin).
  simpl in Hwf. destruct attr as [| | |bag]; try discriminate.
  unfold bind. cbn [py_get]. unfold well_formed_bag in Hwf.
  destruct (dict_get_default bag "validation" (PList [])); try discriminate;
    cbn [py_iter]; eauto.
Qed.

(** Rewriting with an equation on [add_edges_from] whose edge list is
    written with another, convertible, type annotation. *)
Ltac rewrite_edges H :=
  match type of H with
  | ?l = _ =>
      match goal with
      | |- context [nx.add_edges_from ?g ?es] =>
          change (nx.add_edges_from g es) with l; rewrite H
      end
  end.

(** X14. Every well-formed specification constructs: a mapping with [str]
    keys in which the entry under every key is a list of strings, a string,
    or a mapping from [str] targets to attribute mappings whose
    ["validation"], if present, can be iterated. *)
Theorem construction_succeeds_on_well_formed i transitions :
  well_formed_spec transitions = true ->
  exists self, __init__ i transitions = inr self.
Proof.
  destruct transitions as [| | |items]; try discriminate.
  unfold __init__, bind. cbn [py_keys well_formed_spec].
  set (graph0 := nx.add_nodes_from (nx.empty i) (dict_keys items)).
  assert (Hnodes : forall k, In k (nx.nodes graph0) -> In k (dict_keys items)).
  { intros k. rewrite <- has_node_In. intros H.
    apply add_nodes_from_only in H.
    destruct H as [H|H]; [discriminate | assumption]. }
  intros Hwf. rewrite forallb_forall in Hwf.
  match goal with
  | |- exists self, match for_each ?bd ?l0 ?s0 with _ => _ end = _ =>
      destruct (for_each_ok bd l0) with (s := s0) as [final Hfinal]
  end.
  - intros [graph validations] node Hnode.
    apply Hnodes in Hnode. specialize (Hwf node Hnode).
    cbn [py_getitem].
    destruct (dict_get items node) as [edges|] eqn:Hget.
    + destruct edges as [|s|xs|edges]; cbn [well_formed_entry] in Hwf.
      * discriminate.
      * cbn [py_iter].
        destruct (add_edges_from_plain_ok graph node (char_strings s)
                    (char_strings_str s)) as [g' Hg'].
        rewrite_edges Hg'. eauto.
      * cbn [py_iter]. rewrite forallb_forall in Hwf.
        destruct (add_edges_from_plain_ok graph node xs Hwf) as [g' Hg'].
        rewrite_edges Hg'. eauto.
      * destruct (add_transition_validations_ok validations node edges Hwf)
          as [vals Hvals].
        destruct (add_edges_from_bags_ok graph node edges Hwf) as [g' Hg'].
        rewrite Hvals. cbv zeta. rewrite_edges Hg'. eauto.
    + exfalso. apply dict_mem_In in Hnode. unfold dict_mem in Hnode.
      rewrite Hget in Hnode. discriminate.
  - rewrite Hfinal. eauto.
Qed.

Lemma construction_succeeds_on_well_formed_witness :
  exists self, __init__ 1 chain_spec = inr self.
Proof.
  apply (construction_succeeds_on_well_formed 1 chain_spec). reflexivity.
Defined.

(** ** What the validation index holds *)

Lemma dict_get_default_set {V : Type} (d : dict V) k k' v default :
  dict_get_default (dict_set d k v) k' default
  = if String.eqb k k' then v else dict_get_default d k' default.
Proof.
  unfold dict_get_default. rewrite dict_get_set. now destruct (String.eqb k k').
Qed.

Lemma stored_add validations a b vm a' b' :
  stored (_add_validation validations a b vm) a' b'
  = if String.eqb a a' && String.eqb b b' then Some vm
    else stored validations a' b'.
Proof.
  unfold _add_validation.
  set (v0 := match validations with Some v => v | None => [] end).
  assert (Hs : stored validations a' b' = dict_get (dict_get_default v0 a' []) b').
  { unfold stored, v0. destruct validations; reflexivity. }
  rewrite Hs. unfold stored. rewrite dict_get_default_set.
  destruct (String.eqb_spec a a') as [<-|Hne]; cbn [andb].
  - rewrite dict_get_set.
    assert (Hd : dict_get_default
                   (if dict_mem v0 a then v0 else dict_set v0 a []) a []
                 = dict_get_default v0 a []).
    { destruct (dict_mem v0 a) eqn:E; [reflexivity|].
      rewrite dict_get_default_set, String.eqb_refl.
      unfold dict_get_default, dict_mem in *.
      now destruct (dict_get v0 a). }
    rewrite Hd. reflexivity.
  - destruct (dict_mem v0 a); [reflexivity|].
    rewrite dict_get_default_set.
    destruct (String.eqb_spec a a'); [contradiction | reflexivity].
Qed.

Lemma stored_fold methods : forall validations a b a' b',
  stored (fold_left (fun vals vm => _add_validation vals a b vm) methods validations)
         a' b'
  = if String.eqb a a' && String.eqb b b' then
      match methods with
      | [] => stored validations a' b'
      | _ => Some (last methods PNone)
      end
    else stored validations a' b'.
Proof.
  induction methods as [|m ms IH]; intros validations a b a' b'.
  - simpl. now destruct (String.eqb a a' && String.eqb b b').
  - cbn [fold_left]. rewrite IH, stored_add.
    destruct (String.eqb a a' && String.eqb b b'); [|reflexivity].
    destruct ms; reflexivity.
Qed.

Lemma fold_add_none methods validations a b :
  fold_left (fun vals vm => _add_validation vals a b vm) methods validations = None
  <-> validations = None /\ methods = [].
Proof.
  revert validations. induction methods as [|m ms IH]; intros validations; simpl.
  - tauto.
  - rewrite IH. unfold _add_validation. split; [intros [H _]|intros [_ H]];
      discriminate.
Qed.

Lemma hooks_of_fun attributes m1 m2 :
  hooks_of attributes m1 -> hooks_of attributes m2 -> m1 = m2.
Proof. intros [v1 [G1 I1]] [v2 [G2 I2]]. congruence. Qed.

(** One item of [_add_transition_validations]. *)
Lemma validations_item vals from_state to_state attributes vals' :
  (let* validation_methods := py_get attributes "validation" (PList []) in
   let* methods := py_iter validation_methods in
   inr (fold_left
          (fun v vm => _add_validation v from_state to_state vm) methods vals))
  = inr vals' ->
  exists methods,
    hooks_of attributes methods
    /\ vals' = fold_left (fun v vm => _add_validation v from_state to_state vm)
                 methods vals.
Proof.
  unfold bind. intros H.
  destruct (py_get attributes "validation" (PList [])) as [e|v] eqn:G;
    [discriminate|].
  destruct (py_iter v) as [e|methods] eqn:I; [discriminate|].
  inversion H; subst. exists methods. split; [exists v; auto | reflexivity].
Qed.

Lemma add_transition_validations_stored items : forall vals a vals',
  _add_transition_validations vals a items = inr vals' ->
  (forall a' b', a' <> a -> stored vals' a' b' = stored vals a' b')
  /\ (forall b, (forall attr methods, In (b, attr) items ->
                                      hooks_of attr methods -> methods = []) ->
                stored vals' a b = stored vals a b)
  /\ (forall b attr methods,
        NoDup (dict_keys items) -> In (b, attr) items ->
        hooks_of attr methods -> methods <> [] ->
        stored vals' a b = Some (last methods PNone))
  /\ (vals' = None <->
      vals = None
      /\ forall b attr methods, In (b, attr) items ->
                                hooks_of attr methods -> methods = []).
Proof.
  unfold _add_transition_validations.
  induction items as [|[b0 attr0] items IH]; intros vals a vals' Hrun;
    cbn [for_each] in Hrun.
  - inversion Hrun; subst. split; [auto | split; [auto | split]].
    + intros b attr methods _ [].
    + split; [intros Hv; split; [assumption | intros b attr methods []]
             | intros [Hv _]; assumption].
  - unfold bind in Hrun at 1.
    match type of Hrun with
    | match ?X with _ => _ end = _ => destruct X as [e|vals1] eqn:Hitem;
                                       [discriminate|]
    end.
    apply validations_item in Hitem. destruct Hitem as [m0 [Hm0 ->]].
    destruct (IH _ _ _ Hrun) as (C1 & C2 & C3 & C4).
    split; [|split; [|split]].
    + intros a' b' Hne. rewrite (C1 a' b' Hne), stored_fold.
      destruct (String.eqb_spec a a'); [congruence | reflexivity].
    + intros b Hempty. rewrite C2.
      * rewrite stored_fold, String.eqb_refl. cbn [andb].
        destruct (String.eqb_spec b0 b) as [->|]; [|reflexivity].
        now rewrite (Hempty attr0 m0 (or_introl eq_refl) Hm0).
      * intros attr methods Hin Hh.
        apply (Hempty attr methods); [now right | assumption].
    + intros b attr methods Hnd Hin Hh Hne. simpl in Hnd.
      inversion Hnd as [|? ? Hnotin Hnd']; subst.
      destruct Hin as [Heq|Hin].
      * inversion Heq; subst.
        rewrite C2.
        -- rewrite stored_fold, !String.eqb_refl. cbn [andb].
           rewrite (hooks_of_fun _ _ _ Hm0 Hh).
           destruct methods; [contradiction | reflexivity].
        -- intros attr' methods' Hin'. exfalso. apply Hnotin.
           unfold dict_keys. apply in_map_iff. exists (b, attr'). auto.
      * now apply (C3 b attr methods).
    + rewrite C4, fold_add_none. split.
      * intros [[Hv Hm] Hrest]. split; [assumption|].
        intros b attr methods [Heq|Hin] Hh.
        -- inversion Heq; subst. exact (hooks_of_fun _ _ _ Hh Hm0).
        -- eapply Hrest; eauto.
      * intros [Hv Hall]. split; [split; [assumption|]|].
        -- apply (Hall b0 attr0 m0); [now left | assumption].
        -- intros b attr methods Hin Hh.
           apply (Hall b attr methods); [now right | assumption].
Qed.

Lemma init_unfold i transitions :
  __init__ i transitions
  = (let* keys := py_keys transitions in
     let graph := nx.add_nodes_from (nx.empty i) keys in
     let* self := for_each (init_step transitions) (nx.nodes graph) (graph, None) in
     inr (mkStatusMap (fst self) (snd self))).
Proof. reflexivity. Qed.

Lemma init_step_vals t graph vals node graph' vals' :
  init_step t (graph, vals) node = inr (graph', vals') ->
  (exists items, py_getitem t node = inr (PDict items)
                 /\ _add_transition_validations vals node items = inr vals')
  \/ ((forall items, py_getitem t node <> inr (PDict items)) /\ vals' = vals).
Proof.
  unfold init_step, bind. intros H.
  destruct (py_getitem t node) as [e|edges]; [discriminate|].
  destruct edges as [|s|xs|items].
  - discriminate.
  - cbn [py_iter] in H.
    destruct (nx.add_edges_from graph _); [discriminate|].
    inversion H; subst. right. split; [intros items; discriminate | reflexivity].
  - cbn [py_iter] in H.
    destruct (nx.add_edges_from graph _); [discriminate|].
    inversion H; subst. right. split; [intros items; discriminate | reflexivity].
  - destruct (_add_transition_validations vals node items) as [e|v1] eqn:Hv;
      [discriminate|].
    cbv zeta in H. destruct (nx.add_edges_from graph _); [discriminate|].
    inversion H; subst. left. eauto.
Qed.

Lemma init_loop_stored t nodes : forall graph vals graph' vals',
  for_each (init_step t) nodes (graph, vals) = inr (graph', vals') ->
  (forall a b, ~ In a nodes -> stored vals' a b = stored vals a b)
  /\ (forall a b, (forall methods, declares_hooks t a b methods -> methods = []) ->
                  stored vals' a b = stored vals a b)
  /\ (forall a b edges attr methods,
        NoDup nodes -> In a nodes ->
        py_getitem t a = inr (PDict edges) -> NoDup (dict_keys edges) ->
        In (b, attr) edges -> hooks_of attr methods -> methods <> [] ->
        stored vals' a b = Some (last methods PNone))
  /\ (vals' = None <->
      vals = None
      /\ forall a b methods, In a nodes -> declares_hooks t a b methods ->
                             methods = []).
Proof.
  induction nodes as [|n nodes IH]; intros graph vals graph' vals' Hrun;
    cbn [for_each] in Hrun.
  - inversion Hrun; subst. split; [auto | split; [auto | split]].
    + intros a b edges attr methods _ [].
    + split; [intros Hv; split; [assumption | intros a b methods []]
             | intros [Hv _]; assumption].
  - unfold bind in Hrun at 1.
    destruct (init_step t (graph, vals) n) as [e|[graph1 vals1]] eqn:Hstep;
      [discriminate|].
    destruct (IH _ _ _ _ Hrun) as (D1 & D2 & D3 & D4).
    apply init_step_vals in Hstep.
    destruct Hstep as [(items & Hget & Hinner)|[Hnot ->]].
    + destruct (add_transition_validations_stored _ _ _ _ Hinner)
        as (C1 & C2 & C3 & C4).
      split; [|split; [|split]].
      * intros a b Hnin. rewrite D1 by (intros H; apply Hnin; now right).
        apply C1. intros ->. apply Hnin. now left.
      * intros a b Hempty. rewrite (D2 a b Hempty).
        destruct (String.eqb_spec a n) as [->|Hne]; [|now apply C1].
        apply C2. intros attr methods Hin Hh. apply Hempty.
        exists items, attr. auto.
      * intros a b edges attr methods Hnd Hin Hg Hnde Hitem Hh Hne.
        inversion Hnd as [|? ? Hnotin Hnd']; subst.
        destruct Hin as [->|Hin].
        -- rewrite (D1 a b Hnotin). rewrite Hg in Hget. inversion Hget; subst.
           now apply (C3 b attr methods).
        -- now apply (D3 a b edges attr methods).
      * rewrite D4, C4. split.
        -- intros [[Hv Hn] Hrest]. split; [assumption|].
           intros a b methods [<-|Hin] (edges & attr & Hg & Hitem & Hh).
           ++ rewrite Hg in Hget. inversion Hget; subst.
              now apply (Hn b attr methods).
           ++ apply (Hrest a b methods Hin). exists edges, attr. auto.
        -- intros [Hv Hall]. split; [split; [assumption|]|].
           ++ intros b attr methods Hitem Hh.
              apply (Hall n b methods); [now left|]. exists items, attr. auto.
           ++ intros a b methods Hin. apply Hall. now right.
    + split; [|split; [|split]].
      * intros a b Hnin. apply D1. intros H; apply Hnin; now right.
      * exact D2.
      * intros a b edges attr methods Hnd Hin Hg Hnde Hitem Hh Hne.
        inversion Hnd as [|? ? Hnotin Hnd']; subst.
        destruct Hin as [->|Hin]; [now elim (Hnot edges)|].
        now apply (D3 a b edges attr methods).
      * rewrite D4. split.
        -- intros [Hv Hrest]. split; [assumption|].
           intros a b methods [<-|Hin] Hd; [|now apply (Hrest a b methods)].
           destruct Hd as (edges & _ & Hg & _). now elim (Hnot edges).
        -- intros [Hv Hall]. split; [assumption|].
           intros a b methods Hin. apply Hall. now right.
Qed.

Lemma init_validations i t self :
  __init__ i t = inr self ->
  exists keys graph',
    py_keys t = inr keys
    /\ NoDup (nx.nodes (nx.add_nodes_from (nx.empty i) keys))
    /\ (forall a, In a keys ->
                  In a (nx.nodes (nx.add_nodes_from (nx.empty i) keys)))
    /\ for_each (init_step t)
         (nx.nodes (nx.add_nodes_from (nx.empty i) keys))
         (nx.add_nodes_from (nx.empty i) keys, None)
       = inr (graph', _validations self).
Proof.
  rewrite init_unfold. unfold bind. intros Hinit.
  destruct (py_keys t) as [e|keys]; [discriminate|].
  cbv zeta in Hinit.
  destruct (for_each (init_step t) _ _) as [e|[graph' vals']] eqn:Hloop;
    [discriminate|].
  inversion Hinit; subst; simpl.
  destruct (add_nodes_from_spec keys (nx.empty i) (wf_empty i)) as (W0 & _ & N0).
  exists keys, graph'. split; [reflexivity | split; [|split]].
  - apply (wf_nodup _ W0).
  - intros a Ha. apply has_node_In. now apply N0.
  - exact Hloop.
Qed.

Lemma get_validations_stored self a b :
  get_validations self a b
  = match _validations self with
    | None => inl AttributeError
    | Some _ =>
        inr (match stored (_validations self) a b with
             | Some x => x
             | None => PList []
             end)
    end.
Proof.
  unfold get_validations, stored, dict_get_default.
  destruct (_validations self); reflexivity.
Qed.

(** X15. For an edge [a -> b] declared in a metadata mapping with a
    non-empty list of validation hooks, [get_validations(a, b)] on the
    constructed map returns the last hook of the list, whatever the other
    entries of the specification are. *)
Theorem get_validations_last_hook i transitions self a b edges attributes methods :
  __init__ i transitions = inr self ->
  py_getitem transitions a = inr (PDict edges) ->
  NoDup (dict_keys edges) ->
  In (b, attributes) edges ->
  hooks_of attributes methods ->
  methods <> [] ->
  get_validations self a b = inr (last methods PNone).
Proof.
  intros Hinit Hget Hnd Hin Hh Hne.
  destruct (init_validations _ _ _ Hinit) as (keys & graph' & Hkeys & Hnodes & Hall & Hloop).
  destruct (init_loop_stored _ _ _ _ _ _ Hloop) as (_ & _ & D3 & _).
  assert (Ha : In a keys).
  { destruct (py_getitem_key _ _ _ Hget) as [items [-> [_ Hk]]].
    simpl in Hkeys. now inversion Hkeys; subst. }
  pose proof (D3 a b edges attributes methods Hnodes (Hall a Ha) Hget Hnd Hin Hh Hne)
    as Hs.
  rewrite get_validations_stored, Hs.
  destruct (_validations self); [reflexivity | discriminate].
Qed.

Lemma get_validations_last_hook_witness :
  get_validations chain_map "b" "c" = inr (last [PStr "h1"; PStr "h2"] PNone).
Proof.
  apply (get_validations_last_hook 1 chain_spec chain_map "b" "c"
           [("c", PDict [("validation", PList [PStr "h1"; PStr "h2"])])]
           (PDict [("validation", PList [PStr "h1"; PStr "h2"])])).
  - reflexivity.
  - reflexivity.
  - repeat constructor. simpl. tauto.
  - now left.
  - exists (PList [PStr "h1"; PStr "h2"]). split; reflexivity.
  - discriminate.
Defined.

(** X16. On a constructed map [get_validations] raises [AttributeError],
    for whatever pair it is asked, exactly when no edge of the specification
    lists a validation hook. *)
Theorem get_validations_attribute_error_iff i transitions self a b :
  __init__ i transitions = inr self ->
  (get_validations self a b = inl AttributeError
   <-> forall a' b' methods, declares_hooks transitions a' b' methods ->
                             methods = []).
Proof.
  intros Hinit.
  destruct (init_validations _ _ _ Hinit) as (keys & graph' & Hkeys & Hnodes & Hall & Hloop).
  destruct (init_loop_stored _ _ _ _ _ _ Hloop) as (_ & _ & _ & D4).
  rewrite get_validations_stored.
  assert (Hnone : _validations self = None
                  <-> forall a' b' methods,
                        declares_hooks transitions a' b' methods -> methods = []).
  { rewrite D4. split.
    - intros [_ H] a' b' methods Hd. apply (H a' b' methods); [|assumption].
      destruct Hd as (edges & attr & Hget & _).
      destruct (py_getitem_key _ _ _ Hget) as [items [-> [_ Hk]]].
      simpl in Hkeys. inversion Hkeys; subst. now apply Hall.
    - intros H. split; [reflexivity|]. intros a' b' methods _. apply H. }
  rewrite <- Hnone.
  destruct (_validations self); split; congruence.
Qed.

Lemma get_validations_attribute_error_iff_witness :
  get_validations plain_map "a" "b" = inl AttributeError
  <-> forall a' b' methods, declares_hooks plain_spec a' b' methods ->
                            methods = [].
Proof.
  apply (get_validations_attribute_error_iff 3 plain_spec plain_map "a" "b").
  reflexivity.
Defined.

(** X17. For a pair for which the specification lists no hook,
    [get_validations] on a constructed map raises [AttributeError] or returns
    the empty list: it returns no hook of another edge and raises nothing
    else. *)
Theorem get_validations_without_hooks i transitions self a b :
  __init__ i transitions = inr self ->
  (forall methods, declares_hooks transitions a b methods -> methods = []) ->
  get_validations self a b = inl AttributeError
  \/ get_validations self a b = inr (PList []).
Proof.
  intros Hinit Hempty.
  destruct (init_validations _ _ _ Hinit) as (keys & graph' & _ & _ & _ & Hloop).
  destruct (init_loop_stored _ _ _ _ _ _ Hloop) as (_ & D2 & _).
  rewrite get_validations_stored, (D2 a b Hempty).
  destruct (_validations self); [right | left]; reflexivity.
Qed.

Lemma get_validations_without_hooks_witness :
  get_validations chain_map "a" "b" = inl AttributeError
  \/ get_validations chain_map "a" "b" = inr (PList []).
Proof.
  apply (get_validations_without_hooks 1 chain_spec chain_map "a" "b").
  - reflexivity.
  - intros methods (edges & attr & Hget & _). discriminate Hget.
Defined.

(** ** Ancestors and descendants through the caches *)

(** X18. On a constructed map with right caches, [get_descendants] of a
    node is the set of the other statuses reachable from it, [get_ancestors]
    the set of the other statuses that reach it, and the two are dual: [t]
    is among the descendants of [s] exactly when [s] is among the ancestors
    of [t]. *)
Theorem ancestors_descendants_dual i transitions self s t c c' :
  __init__ i transitions = inr self ->
  caches_valid (_graph self) c ->
  caches_valid (_graph self) c' ->
  nx.has_node (_graph self) s = true ->
  nx.has_node (_graph self) t = true ->
  exists desc anc,
    fst (get_descendants (descendants_cache c) (_graph self) s) = inr desc
    /\ fst (get_ancestors (ancestors_cache c') (_graph self) t) = inr anc
    /\ (forall x, set_mem x desc = true
                  <-> x <> s /\ reachable (_graph self) s x)
    /\ (forall x, set_mem x anc = true
                  <-> x <> t /\ reachable (_graph self) x t)
    /\ (set_mem t desc = true <-> set_mem s anc = true).
Proof.
  intros Hinit [_ Hvd] [Hva _] Hs Ht.
  destruct (init_spec _ _ _ Hinit) as (Hwf & _).
  destruct (descendants_spec _ Hwf s Hs) as [desc [Hdesc Sdesc]].
  destruct (ancestors_spec _ Hwf t Ht) as [anc [Hanc Sanc]].
  exists desc, anc. unfold get_descendants, get_ancestors.
  rewrite (lru_cache_result nx.descendants _ _ s Hvd), Hdesc.
  rewrite (lru_cache_result nx.ancestors _ _ t Hva), Hanc.
  split; [reflexivity | split; [reflexivity | split; [exact Sdesc|]]].
  split; [exact Sanc|].
  rewrite Sdesc, Sanc. split; intros [Hne Hr]; split; auto.
Qed.

Lemma ancestors_descendants_dual_witness :
  exists desc anc,
    fst (get_descendants (descendants_cache empty_caches) (_graph chain_map) "a")
    = inr desc
    /\ fst (get_ancestors (ancestors_cache empty_caches) (_graph chain_map) "c")
       = inr anc
    /\ (forall x, set_mem x desc = true
                  <-> x <> "a" /\ reachable (_graph chain_map) "a" x)
    /\ (forall x, set_mem x anc = true
                  <-> x <> "c" /\ reachable (_graph chain_map) x "c")
    /\ (set_mem "c" desc = true <-> set_mem "a" anc = true).
Proof.
  apply (ancestors_descendants_dual 1 chain_spec chain_map "a" "c").
  - reflexivity.
  - apply caches_valid_empty.
  - apply caches_valid_empty.
  - reflexivity.
  - reflexivity.
Defined.
